(** * A model of ecliptic_banner_chart.py

    A shallow embedding of the banner generator: the Hipparcos catalog
    loader, the figure-file loader, the ecliptic projection, the layout of
    the zodiac figures, the Morse encoder of the decorative line and the
    per-anchor chart assembly.

    Numbers.  The layout and the Morse encoder are modelled with exact
    rationals [Q]: Python's [math.pi] is the binary64 number
    884279719003555 / 2^48, so it is a rational and is used as such;
    rounding of the intermediate float operations is not modelled.  The
    catalog loader keeps the four IEEE-754 cases a parsed float can take
    (finite, +inf, -inf, nan), since its behaviour depends on them.  The
    projection of Star.__init__ is stated over an abstract type of floats
    with the math-module operations as parameters. *)

From Stdlib Require Import ZArith QArith Lqa Ascii String.
From stdpp Require Import base gmap sets list strings pretty sorting.

Open Scope Z_scope.

(** Python exceptions that the modelled code can raise. [MathDomainError]
    is the [ValueError("math domain error")] of [math.cos]/[math.sin],
    kept apart from the [ValueError] of [int()]/[float()] parsing. *)
Inductive exn :=
  | KeyError
  | IndexError
  | ValueError
  | MathDomainError
  | ZeroDivisionError.

(** ** Python string helpers (str, ASCII model) *)

(** [str.isspace] restricted to ASCII: \t \n \v \f \r, \x1c-\x1f, space. *)
Definition py_isspace (c : ascii) : bool :=
  let n := nat_of_ascii c in
  ((9 <=? n)%nat && (n <=? 13)%nat) || ((28 <=? n)%nat && (n <=? 32)%nat).

Fixpoint lstrip_chars (l : list ascii) : list ascii :=
  match l with
  | [] => []
  | c :: r => if py_isspace c then lstrip_chars r else l
  end.

(** [str.strip()] *)
Definition py_strip (s : string) : string :=
  string_of_list_ascii (rev (lstrip_chars (rev (lstrip_chars (list_ascii_of_string s))))).

(** [str.split()] with no separator: maximal runs of non-space chars. *)
Fixpoint split_aux (l : list ascii) (cur : list ascii) : list string :=
  match l with
  | [] => match cur with [] => [] | _ => [string_of_list_ascii (rev cur)] end
  | c :: r =>
      if py_isspace c then
        match cur with
        | [] => split_aux r []
        | _ => string_of_list_ascii (rev cur) :: split_aux r []
        end
      else split_aux r (c :: cur)
  end.

Definition py_split (s : string) : list string := split_aux (list_ascii_of_string s) [].

(** ** Morse encoder: [morse_coords] *)
Module Morse.

Open Scope Q_scope.

(** The [alphabet] dict of [morse_coords], with its two-character key
    [', '] as written in the source. *)
Definition alphabet : gmap string string :=
  list_to_map
    [("a", ".-"); ("b", "-..."); ("c", "-.-."); ("d", "-.."); ("e", ".");
     ("f", "..-."); ("g", "--."); ("h", "...."); ("i", ".."); ("j", ".---");
     ("k", "-.-"); ("l", ".-.."); ("m", "--"); ("n", "-."); ("o", "---");
     ("p", ".--."); ("q", "--.-"); ("r", ".-."); ("s", "..."); ("t", "-");
     ("u", "..-"); ("v", "...-"); ("w", ".--"); ("x", "-..-"); ("y", "-.--");
     ("z", "--.."); ("1", ".----"); ("2", "..---"); ("3", "...--");
     ("4", "....-"); ("5", "....."); ("6", "-...."); ("7", "--...");
     ("8", "---.."); ("9", "----."); ("0", "-----"); (", ", "--..--");
     (".", ".-.-.-"); ("?", "..--.."); ("/", "-..-."); ("-", "-....-");
     ("(", "-.--."); (")", "-.--.-")].

(** [for symbol in code:] — appends one mark per symbol, advancing x. *)
Fixpoint encode_code (code : list ascii) (x : Q) (coords : list (Q * Q))
  : Q * list (Q * Q) :=
  match code with
  | [] => (x, coords)
  | symbol :: rest =>
      if ascii_dec symbol "-"%char
      then encode_code rest (x + 5) (coords ++ [(x, x + 3)])
      else encode_code rest (x + 3) (coords ++ [(x, x + 1)])
  end.

(** [for ch in string.strip():] — the raw (unscaled) marks and the final
    cursor x; an unknown character is a [KeyError]. *)
Fixpoint encode_chars (s : list ascii) (x : Q) (coords : list (Q * Q))
  : exn + (Q * list (Q * Q)) :=
  match s with
  | [] => inr (x, coords)
  | ch :: rest =>
      if ascii_dec ch " "%char then encode_chars rest (x + 6) coords
      else
        match alphabet !! String ch EmptyString with
        | None => inl KeyError
        | Some code =>
            let '(x', coords') := encode_code (list_ascii_of_string code) x coords in
            encode_chars rest (x' + 3) coords'
        end
  end.

Definition morse_raw (s : string) : exn + (Q * list (Q * Q)) :=
  encode_chars (list_ascii_of_string (py_strip s)) 0 [].

(** [morse_coords(string, minc, maxc)]; a float division by zero raises. *)
Definition morse_coords (s : string) (minc maxc : Q) : exn + list (Q * Q) :=
  match morse_raw s with
  | inl e => inl e
  | inr (x, coords) =>
      if Qeq_bool (x - 2) 0 then inl ZeroDivisionError
      else
        let scale := (maxc - minc) / (x - 2) in
        inr (map (fun '(x1, x2) => (x1 * scale + minc, x2 * scale + minc)) coords)
  end.

End Morse.

(** ** Python [int()] on a str token (base 10, ASCII digits) *)

Definition is_digit (c : ascii) : bool :=
  let n := nat_of_ascii c in ((48 <=? n)%nat && (n <=? 57)%nat).

Definition digit_val (c : ascii) : Z := Z.of_nat (nat_of_ascii c) - 48.

(** Digits with single underscores allowed between two digits;
    [prev] records whether the previous character was a digit. *)
Fixpoint digits_us (l : list ascii) (acc : Z) (prev : bool) : option Z :=
  match l with
  | [] => if prev then Some acc else None
  | c :: r =>
      if is_digit c then digits_us r (acc * 10 + digit_val c) true
      else if Ascii.eqb c "_"%char && prev then digits_us r acc false
      else None
  end.

(** [int(s)]: surrounding whitespace, an optional sign, then digits;
    [None] stands for the [ValueError]. *)
Definition py_int (s : string) : option Z :=
  match list_ascii_of_string (py_strip s) with
  | "-"%char :: r => option_map Z.opp (digits_us r 0 false)
  | "+"%char :: r => digits_us r 0 false
  | r => digits_us r 0 false
  end.

(** ** Figure loader: [get_figures] *)
Module Figures.

Abbreviation figure := (list (Z * Z)).

(** [int(fields.pop(0))]: [IndexError] on an empty list,
    [ValueError] on a token that is not an integer. *)
Definition pop_int (fields : list string) : exn + (Z * list string) :=
  match fields with
  | [] => inl IndexError
  | t :: r => match py_int t with Some z => inr (z, r) | None => inl ValueError end
  end.

(** [for i in range(count):] reading the id pairs of one line. *)
Fixpoint read_pairs (n : nat) (fields : list string) (fig : figure) (sp : gset Z)
  : exn + (list string * figure * gset Z) :=
  match n with
  | O => inr (fields, fig, sp)
  | S n' =>
      match pop_int fields with
      | inl e => inl e
      | inr (id1, f1) =>
          match pop_int f1 with
          | inl e => inl e
          | inr (id2, f2) => read_pairs n' f2 (fig ++ [(id1, id2)]) ({[id2]} ∪ ({[id1]} ∪ sp))
          end
      end
  end.

(** The state of the loop after one line: go on, [break], or an
    exception that leaves [get_figures]. *)
Inductive line_step :=
  | LContinue (figs : gmap string figure) (sp : gset Z) (out : list string)
  | LBreak (figs : gmap string figure) (sp : gset Z) (out : list string)
  | LRaise (out : list string) (e : exn).

Definition extra_msg : string := "extra data found in a line of figures file:".

(** [line == '' or line[0] == '#'] *)
Definition skip_line (line : string) : bool :=
  match list_ascii_of_string line with
  | [] => true
  | c :: _ => Ascii.eqb c "#"%char
  end.

(** The body of [for line in fig_file:]; [out] is the printed output. *)
Definition fig_line (line0 : string) (figs : gmap string figure) (sp : gset Z)
    (out : list string) : line_step :=
  let line := py_strip line0 in
  if skip_line line then LContinue figs sp out
  else
      match py_split line with
      | [] => LRaise out IndexError
      | name :: fields =>
          match pop_int fields with
          | inl e => LRaise out e
          | inr (count, fields1) =>
              match read_pairs (Z.to_nat count) fields1 [] sp with
              | inl e => LRaise out e
              | inr (fields2, fig, sp') =>
                  match fields2 with
                  | _ :: _ => LBreak figs sp' (out ++ [extra_msg; line])
                  | [] => LContinue (<[name := fig]> figs) sp' out
                  end
              end
          end
      end.

Fixpoint fig_run (lines : list string) (figs : gmap string figure) (sp : gset Z)
    (out : list string) : line_step :=
  match lines with
  | [] => LContinue figs sp out
  | l :: rest =>
      match fig_line l figs sp out with
      | LContinue f s o => fig_run rest f s o
      | stop => stop
      end
  end.

Definition summary (figs : gmap string figure) (sp : gset Z) : list string :=
  ["figure file:"; pretty (size figs) +:+ " figures loaded";
   pretty (size sp) +:+ " stars used in figure lines"; ""].

(** [get_figures()] on the lines of the figure file: the printed output
    and either the exception raised or [(figures, stars_present)]. *)
Definition get_figures (lines : list string)
  : list string * (exn + (gmap string figure * gset Z)) :=
  match fig_run lines ∅ ∅ [] with
  | LContinue figs sp out => (out ++ summary figs sp, inr (figs, sp))
  | LBreak figs sp out => (out ++ summary figs sp, inr (figs, sp))
  | LRaise out e => (out, inl e)
  end.

End Figures.

(** ** Hipparcos catalog loader: [load_hip_catalog] *)
Module Catalog.

Open Scope Q_scope.

(** A Python float as produced by [float()]: a finite value (kept
    exact), an infinity or a nan. *)
Inductive pyfloat :=
  | Fin (q : Q)
  | PInf
  | NInf
  | NaN.

(** Python's [a > b] on floats; every comparison with a nan is false. *)
Definition py_gt (a b : pyfloat) : bool :=
  match a, b with
  | NaN, _ | _, NaN => false
  | PInf, PInf => false
  | PInf, _ => true
  | NInf, _ => false
  | Fin _, PInf => false
  | Fin _, NInf => true
  | Fin x, Fin y => negb (Qle_bool x y)
  end.

(** Python's [a <= b] on floats. *)
Definition py_le (a b : pyfloat) : bool :=
  match a, b with
  | NaN, _ | _, NaN => false
  | NInf, _ => true
  | _, PInf => true
  | PInf, _ => false
  | Fin _, NInf => false
  | Fin x, Fin y => Qle_bool x y
  end.

Definition is_infinite (a : pyfloat) : bool :=
  match a with PInf | NInf => true | _ => false end.

(** A line of the gzip file is a [bytes] object. *)
Abbreviation bytes := (list Byte.byte).

(** [line[a:b]] *)
Definition py_slice (a b : nat) (l : bytes) : bytes := firstn (b - a) (skipn a l).

Definition chars_of (l : bytes) : list ascii := map ascii_of_byte l.

(** [bytes.strip()]: ASCII whitespace space, \t, \n, \v, \f, \r. *)
Definition bytes_isspace (c : ascii) : bool :=
  let n := nat_of_ascii c in ((9 <=? n)%nat && (n <=? 13)%nat) || (n =? 32)%nat.

Fixpoint lstrip_bytes (l : list ascii) : list ascii :=
  match l with
  | [] => []
  | c :: r => if bytes_isspace c then lstrip_bytes r else l
  end.

Definition bytes_strip (l : bytes) : list ascii :=
  rev (lstrip_bytes (rev (lstrip_bytes (chars_of l)))).

(** [int(b)] on a bytes object. *)
Definition py_int_bytes (l : bytes) : option Z :=
  match bytes_strip l with
  | "-"%char :: r => option_map Z.opp (digits_us r 0 false)
  | "+"%char :: r => digits_us r 0 false
  | r => digits_us r 0 false
  end.

(** [float()] first removes underscores, each of which must stand between
    two digits. *)
Fixpoint drop_underscores (l : list ascii) (prev_digit : bool) : option (list ascii) :=
  match l with
  | [] => Some []
  | c :: r =>
      if Ascii.eqb c "_"%char then
        match r with
        | d :: _ => if prev_digit && is_digit d then drop_underscores r false else None
        | [] => None
        end
      else option_map (cons c) (drop_underscores r (is_digit c))
  end.

Definition lower_char (c : ascii) : ascii :=
  let n := nat_of_ascii c in
  if ((65 <=? n)%nat && (n <=? 90)%nat) then ascii_of_nat (n + 32) else c.

(** ["inf"], ["infinity"], ["nan"] in any case. *)
Definition parse_inf_nan (l : list ascii) : option pyfloat :=
  let s := string_of_list_ascii (map lower_char l) in
  if String.eqb s "inf" || String.eqb s "infinity" then Some PInf
  else if String.eqb s "nan" then Some NaN
  else None.

(** Leading decimal digits: their count, value and the rest. *)
Fixpoint take_digits (l : list ascii) (n : nat) (acc : Z) : nat * Z * list ascii :=
  match l with
  | c :: r => if is_digit c then take_digits r (S n) (acc * 10 + digit_val c) else (n, acc, l)
  | [] => (n, acc, l)
  end.

(** The exponent part [e[+-]ddd] (or nothing). *)
Definition parse_exponent (l : list ascii) : option Z :=
  match l with
  | [] => Some 0%Z
  | e :: r =>
      if Ascii.eqb (lower_char e) "e"%char then
        let '(sgn, r') := match r with
                          | "-"%char :: r' => (-1, r')
                          | "+"%char :: r' => (1, r')
                          | _ => (1, r)
                          end%Z in
        match take_digits r' 0 0 with
        | (S _, v, []) => Some (sgn * v)%Z
        | _ => None
        end
      else None
  end.

(** Numbers past the largest binary64 value (rounded to nearest) are
    infinite: 2^1024 - 2^970 is the overflow boundary. *)
Definition overflow_bound : Q := inject_Z (2 ^ 1024 - 2 ^ 970).

(** A finite decimal [ddd.ddd e ddd] without sign. *)
Definition parse_decimal (l : list ascii) : option pyfloat :=
  let '(n1, m1, r1) := take_digits l 0 0 in
  let '(n2, m, r2) :=
      match r1 with
      | "."%char :: r => let '(k, m2, r') := take_digits r 0 m1 in (k, m2, r')
      | _ => (0%nat, m1, r1)
      end in
  if ((n1 + n2 =? 0)%nat) then None
  else
    match parse_exponent r2 with
    | None => None
    | Some ex =>
        let v := inject_Z m * Qpower 10 (ex - Z.of_nat n2) in
        Some (if Qle_bool overflow_bound v then PInf else Fin v)
    end.

Definition neg_float (a : pyfloat) : pyfloat :=
  match a with Fin q => Fin (- q) | PInf => NInf | NInf => PInf | NaN => NaN end.

(** [float(b)] on a bytes object; [None] stands for the [ValueError]. *)
Definition py_float_bytes (l : bytes) : option pyfloat :=
  match drop_underscores (bytes_strip l) false with
  | None => None
  | Some s =>
      let '(neg, body) := match s with
                          | "-"%char :: r => (true, r)
                          | "+"%char :: r => (false, r)
                          | _ => (false, s)
                          end in
      let v := match parse_inf_nan body with
               | Some f => Some f
               | None => parse_decimal body
               end in
      if neg then option_map neg_float v else v
  end.

(** The four sliced fields of the [try] block, parsed in order. *)
Definition parse_fields (line : bytes) : option (Z * pyfloat * pyfloat * pyfloat) :=
  hip_id ← py_int_bytes (py_slice 0 6 line);
  ra ← py_float_bytes (py_slice 15 28 line);
  dec ← py_float_bytes (py_slice 29 42 line);
  vmag ← py_float_bytes (py_slice 129 136 line);
  Some (hip_id, ra, dec, vmag).

(** The fields a catalog [Star] is built from; the derived ecliptic
    coordinates and radius are those of [Projection.Star_init]. *)
Record Star := mkStar {
  hip_id : Z;
  ra : pyfloat;
  dec : pyfloat;
  vmag : pyfloat
}.

(** [Star(hip_id=..., vmag=..., ra=..., dec=...)]: [math.cos] and
    [math.sin] of an infinite [ra] or [dec] raise, the rest is total. *)
Definition make_star (hip_id : Z) (ra dec vmag : pyfloat) : exn + Star :=
  if is_infinite dec || is_infinite ra then inl MathDomainError
  else inr (mkStar hip_id ra dec vmag).

Definition vmag_limit : pyfloat := Fin 7.

(** Printed output: the discarded-line message shows the first 48 bytes. *)
Inductive msg :=
  | Discarding (prefix : bytes)
  | Text (s : string).

Inductive load_state :=
  | Loaded (catalog : gmap Z Star) (discarded : nat) (out : list msg)
  | Raised (out : list msg) (e : exn).

(** [for line in hip_file:] *)
Fixpoint load_lines (lines : list bytes) (catalog : gmap Z Star) (discarded : nat)
    (out : list msg) : load_state :=
  match lines with
  | [] => Loaded catalog discarded out
  | line :: rest =>
      match parse_fields line with
      | None => load_lines rest catalog (S discarded) (out ++ [Discarding (firstn 48 line)])
      | Some (hip_id, ra, dec, vmag) =>
          if py_gt vmag vmag_limit then load_lines rest catalog discarded out
          else
            match make_star hip_id ra dec vmag with
            | inl e => Raised out e
            | inr s => load_lines rest (<[hip_id := s]> catalog) discarded out
            end
      end
  end.

(** [load_hip_catalog()] on the lines of hip2.dat.gz. *)
Definition load_hip_catalog (lines : list bytes) : list msg * (exn + gmap Z Star) :=
  match load_lines lines ∅ 0 [] with
  | Loaded catalog discarded out =>
      (out ++ [Text "HIP catalog:"; Text (pretty discarded +:+ " record(s) discarded");
               Text (pretty (size catalog) +:+ " records loaded"); Text ""],
       inr catalog)
  | Raised out e => (out, inl e)
  end.

(** Test fixture: a catalog line with the four fields at their columns
    (identifier at 0, ra at 15, dec at 29, magnitude at 129). *)
Definition pad (s : string) (w : nat) : list Byte.byte :=
  let l := list_byte_of_string s in l ++ repeat Byte.x20 (w - length l).

Definition catalog_line (id ra dec vmag : string) : bytes :=
  pad id 15 ++ pad ra 14 ++ pad dec 100 ++ pad vmag 7 ++ [Byte.x0a].

End Catalog.

(** ** Equatorial to ecliptic projection: [Star.__init__] *)
Module Projection.

(** The float operations [Star.__init__] uses: the arithmetic operators,
    [**], the [math] functions, [<] (for [min]), the source's numeric
    literals and [math.pi]. *)
Class FloatOps (F : Type) := {
  f_add : F -> F -> F;
  f_sub : F -> F -> F;
  f_mul : F -> F -> F;
  f_div : F -> F -> F;
  f_pow : F -> F -> F;
  f_cos : F -> F;
  f_sin : F -> F;
  f_sqrt : F -> F;
  f_atan2 : F -> F -> F;
  f_lt : F -> F -> bool;
  f_lit : Q -> F;
  f_pi : F
}.

Section Star.
Context {F : Type} `{FloatOps F}.

(** Module constants [dwg_bleed_width], [dwg_border], [dwg_sky_width],
    [dwg_scale]. *)
Definition dwg_bleed_width : F := f_mul (f_lit 8.5) (f_lit 100).
Definition dwg_border : F := f_mul (f_lit 0.5) (f_lit 100).
Definition dwg_sky_width : F := f_sub dwg_bleed_width (f_mul (f_lit 2) dwg_border).
Definition dwg_scale : F := f_div dwg_sky_width (f_mul (f_lit 2) f_pi).

(** Python's [min(a, b)]: [b] only when [b < a]. *)
Definition py_min (a b : F) : F := if f_lt b a then b else a.

Record Star := mkStar {
  hip_id : Z;
  ra : F;
  dec : F;
  vmag : F;
  ecl_lng : F;
  ecl_lat : F;
  radius : F
}.

(** [Star.__init__] *)
Definition Star_init (hip_id : Z) (ra dec vmag : F) : Star :=
  let equx := f_mul (f_cos dec) (f_cos ra) in
  let equy := f_mul (f_cos dec) (f_sin ra) in
  let equz := f_sin dec in
  let obl := f_div (f_mul (f_lit 23.4376) f_pi) (f_lit 180) in
  let eclx := equx in
  let ecly := f_add (f_mul equy (f_cos obl)) (f_mul equz (f_sin obl)) in
  let eclz := f_sub (f_mul equz (f_cos obl)) (f_mul equy (f_sin obl)) in
  let ecl_lng := f_atan2 ecly eclx in
  let ecl_lat := f_atan2 eclz (f_sqrt (f_add (f_pow eclx (f_lit 2)) (f_pow ecly (f_lit 2)))) in
  let radius := f_div (f_mul dwg_scale (f_sub (f_lit 7) (py_min (f_lit 6.5) (f_mul (f_lit 0.8) vmag))))
                      (f_lit 400) in
  mkStar hip_id ra dec vmag ecl_lng ecl_lat radius.

End Star.
End Projection.

(** Exceptions as a monad: [x ← m; k] stops at the first exception. *)
Global Instance exn_mret : MRet (sum exn) := λ A a, inr a.
Global Instance exn_mbind : MBind (sum exn) :=
  λ A B k m, match m with inl e => inl e | inr a => k a end.

(** [d[k]] on a dict: [KeyError] when the key is missing. *)
Definition dict_get `{Countable K} {V} (m : gmap K V) (k : K) : exn + V :=
  match m !! k with Some v => inr v | None => inl KeyError end.

(** ** Layout of the zodiac figures and the per-anchor charts ([main]) *)
Module Layout.

Open Scope Q_scope.

Definition qlt (a b : Q) : bool := negb (Qle_bool b a).

(** [math.pi], exactly. *)
Definition pi : Q := 884279719003555 # 281474976710656.

Definition dwg_dpi : Q := 100.
Definition dwg_bleed_width : Q := 8.5 * dwg_dpi.
Definition dwg_border : Q := 0.5 * dwg_dpi.
Definition dwg_sky_width : Q := dwg_bleed_width - 2 * dwg_border.
Definition dwg_scale : Q := dwg_sky_width / (2 * pi).

(** A longitude that may be [-float("inf")] (the initial [max_lng]):
    [None] is minus infinity. *)
Abbreviation ext := (option Q).

(** Python's [a > b] with [None] as minus infinity. *)
Definition ext_gt (a b : ext) : bool :=
  match a, b with
  | None, _ => false
  | Some _, None => true
  | Some x, Some y => qlt y x
  end.

(** [ecl_to_dwg(lng, lat, max_lng)]; an infinite [max_lng] gives an
    infinite drawing x ([dwg_scale] is positive). *)
Definition ecl_to_dwg (lng lat : Q) (max_lng : ext) : ext * Q :=
  (option_map (fun m => dwg_scale * (m - lng)) max_lng, dwg_scale * (pi / 2 - lat)).

(** The fields of a catalog star the layout reads. *)
Record Star := mkStar {
  hip_id : Z;
  vmag : Q;
  ecl_lng : Q;
  ecl_lat : Q;
  radius : Q
}.

Abbreviation vertex := (Q * Q)%type.
Abbreviation segment := (vertex * vertex)%type.

(** [max(max_lng, lng)] with [max_lng] possibly [-inf]. *)
Definition py_max (m : ext) (x : Q) : Q :=
  match m with None => x | Some a => if qlt a x then x else a end.

(** [min(min_lng, lng)] with [min_lng] possibly [+inf] ([None]). *)
Definition py_min (m : option Q) (x : Q) : Q :=
  match m with None => x | Some a => if qlt x a then x else a end.

(** The first loop of the figure layout: look up both stars of every
    pair, keeping [coord_pairs], [min_lng] and [max_lng]. *)
Fixpoint collect_coords (cat : gmap Z Star) (pairs : list (Z * Z)) (cps : list segment)
    (mn mx : option Q) : exn + (list segment * option Q * option Q) :=
  match pairs with
  | [] => inr (cps, mn, mx)
  | (id1, id2) :: rest =>
      s1 ← dict_get cat id1;
      let mn1 := Some (py_min mn (ecl_lng s1)) in
      let mx1 := Some (py_max mx (ecl_lng s1)) in
      s2 ← dict_get cat id2;
      let mn2 := Some (py_min mn1 (ecl_lng s2)) in
      let mx2 := Some (py_max mx1 (ecl_lng s2)) in
      collect_coords cat rest (cps ++ [((ecl_lng s1, ecl_lat s1), (ecl_lng s2, ecl_lat s2))]) mn2 mx2
  end.

(** [if coord_pair[i][0] < center: coord_pair[i][0] += 2 * pi] *)
Definition shift (center : Q) (v : vertex) : vertex :=
  if qlt v.1 center then (v.1 + 2 * pi, v.2) else v.

(** The second loop: shift and recompute [max_lng]. *)
Fixpoint shift_coords (center : Q) (cps : list segment) (mx : ext) : list segment * ext :=
  match cps with
  | [] => ([], mx)
  | (v1, v2) :: rest =>
      let v1' := shift center v1 in
      let mx1 := Some (py_max mx v1'.1) in
      let v2' := shift center v2 in
      let mx2 := Some (py_max mx1 v2'.1) in
      let '(rest', mx') := shift_coords center rest mx2 in
      ((v1', v2') :: rest', mx')
  end.

(** One iteration of [for name in zodiac:]: the figure's segments and
    its [fig_max_lng]. *)
Definition figure_layout (cat : gmap Z Star) (pairs : list (Z * Z)) : exn + (list segment * ext) :=
  '(cps, mn, mx) ← collect_coords cat pairs [] None None;
  match mn, mx with
  | Some lo, Some hi =>
      if qlt (pi / 4) (hi - lo) then
        let center := (lo + hi) / 2 in
        inr (shift_coords center cps None)
      else inr (cps, mx)
  | _, _ => inr (cps, mx)
  end.

Definition zodiac : list string :=
  ["Ari"; "Tau"; "Gem"; "Cnc"; "Leo"; "Vir"; "Lib"; "Sco"; "Sgr"; "Aqr"; "Psc"; "Cap"].

(** [fig_coords] and [fig_max_lng] for all zodiac figures. *)
Fixpoint layout_figs (names : list string) (figures : gmap string (list (Z * Z)))
    (cat : gmap Z Star) (fc : gmap string (list segment)) (fm : gmap string ext)
  : exn + (gmap string (list segment) * gmap string ext) :=
  match names with
  | [] => inr (fc, fm)
  | name :: rest =>
      pairs ← dict_get figures name;
      '(coords, mx) ← figure_layout cat pairs;
      layout_figs rest figures cat (<[name := coords]> fc) (<[name := mx]> fm)
  end.

End Layout.

(** ** The SVG charts: the loop [for anchor_name in sorted(zodiac):] *)
Module Chart.

Import Layout.
Open Scope Q_scope.

(** The SVG elements the program adds; a line's x coordinates may be
    infinite (see [ecl_to_dwg]). *)
Inductive element :=
  | Rect (x y w h : Q)
  | Line (x1 : ext) (y1 : Q) (x2 : ext) (y2 : Q)
  | Circle (cx cy r : Q).

(** An SVG group [dwg.g(id=...)] and its children. *)
Record group := mkGroup {
  gid : string;
  elems : list element
}.

Record drawing := mkDrawing {
  filename : string;
  size : Q * Q;
  groups : list group
}.

(** [str.lower()] on ASCII. *)
Definition py_lower (s : string) : string :=
  string_of_list_ascii (map Catalog.lower_char (list_ascii_of_string s)).

(** [make_svg_layer(dwg, name)] *)
Definition make_svg_layer (name : string) (children : list element) : group :=
  mkGroup (py_lower name) children.

(** One line of the Figures layer: both ends shifted by [offset]. *)
Definition segment_line (offset : Q) (max_lng : ext) (seg : segment) : element :=
  let '((ex1, ey1), (ex2, ey2)) := seg in
  let '(dx1, dy1) := ecl_to_dwg (ex1 + offset) ey1 max_lng in
  let '(dx2, dy2) := ecl_to_dwg (ex2 + offset) ey2 max_lng in
  Line dx1 dy1 dx2 dy2.

(** [for name in zodiac:] of the Figures layer. *)
Fixpoint figures_layer (names : list string) (fc : gmap string (list segment))
    (fm : gmap string ext) (anchor : string) (max_lng : ext) : exn + list element :=
  match names with
  | [] => inr []
  | name :: rest =>
      figure ← dict_get fc name;
      fm_name ← dict_get fm name;
      fm_anchor ← dict_get fm anchor;
      let offset := if ext_gt fm_name fm_anchor then -2 * pi else 0 in
      others ← figures_layer rest fc fm anchor max_lng;
      inr (map (segment_line offset max_lng) figure ++ others)
  end.

(** [for offset in (-2 * pi, 0, 2 * pi):] for one star. *)
Definition star_circles (sp : gset Z) (max_lng : ext) (star : Star) : list element :=
  flat_map (fun offset =>
      let '(dx1, dy1) := ecl_to_dwg (ecl_lng star + offset) (ecl_lat star) max_lng in
      match dx1 with
      | Some x =>
          if qlt 0 x && qlt x dwg_bleed_width then
            if qlt (vmag star) 3.5 || bool_decide (hip_id star ∈ sp)
            then [Circle x dy1 (radius star)] else []
          else []
      | None => []
      end)
    [-2 * pi; 0; 2 * pi].

(** [sorted(hip_catalog.keys())] *)
Definition sorted_keys (cat : gmap Z Star) : list Z :=
  merge_sort Z.le (map fst (map_to_list cat)).

(** [for hip_id in sorted(hip_catalog.keys()):] of the Stars layer. *)
Fixpoint stars_layer (ids : list Z) (cat : gmap Z Star) (sp : gset Z) (max_lng : ext)
  : exn + list element :=
  match ids with
  | [] => inr []
  | hip_id :: rest =>
      star ← dict_get cat hip_id;
      others ← stars_layer rest cat sp max_lng;
      inr (star_circles sp max_lng star ++ others)
  end.

Definition ecliptic_text : string := "the ecliptic -- lackawanna astronomical society".

(** The Ecliptic layer: the Morse marks on the line y of latitude 0. *)
Definition ecliptic_layer (max_lng : ext) : exn + list element :=
  let '(_, y) := ecl_to_dwg 0 0 max_lng in
  coords ← Morse.morse_coords ecliptic_text dwg_border (dwg_bleed_width - dwg_border);
  inr (map (fun '(x1, x2) => Line (Some x1) y (Some x2) y) coords).

Definition chart_filename (anchor_name : string) : string :=
  "ecliptic_chart_beginning_with_" +:+ py_lower anchor_name +:+ ".svg".

(** The body of [for anchor_name in sorted(zodiac):]: the drawing saved
    by [dwg.save()]. *)
Definition make_chart (cat : gmap Z Star) (sp : gset Z) (fc : gmap string (list segment))
    (fm : gmap string ext) (anchor_name : string) : exn + drawing :=
  fm_anchor ← dict_get fm anchor_name;
  let max_lng := option_map (fun m => m + dwg_border / dwg_scale) fm_anchor in
  let background := make_svg_layer "Background" [Rect 0 0 dwg_bleed_width (pi * dwg_scale)] in
  figs ← figures_layer zodiac fc fm anchor_name max_lng;
  let figures := make_svg_layer "Figures" figs in
  circles ← stars_layer (sorted_keys cat) cat sp max_lng;
  let stars := make_svg_layer "Stars" circles in
  marks ← ecliptic_layer max_lng;
  let ecliptic := make_svg_layer "Ecliptic" marks in
  inr (mkDrawing (chart_filename anchor_name) (dwg_bleed_width, pi * dwg_scale)
         [background; figures; stars; ecliptic]).

(** Python's string order (by code point) for [sorted]. *)
Definition str_le (s t : string) : Prop := String.compare s t ≠ Gt.

Global Instance str_le_dec : RelDecision str_le := λ s t, _.

Definition sorted_zodiac : list string := merge_sort str_le zodiac.

(** The files saved in order, and the exception that ended the run. *)
Fixpoint make_charts (cat : gmap Z Star) (sp : gset Z) (fc : gmap string (list segment))
    (fm : gmap string ext) (anchors : list string) : list drawing * option exn :=
  match anchors with
  | [] => ([], None)
  | a :: rest =>
      match make_chart cat sp fc fm a with
      | inl e => ([], Some e)
      | inr d => let '(ds, err) := make_charts cat sp fc fm rest in (d :: ds, err)
      end
  end.

(** [main()] after the two loaders: the layout, then one chart per anchor. *)
Definition render (cat : gmap Z Star) (figures : gmap string (list (Z * Z))) (sp : gset Z)
  : list drawing * option exn :=
  match layout_figs zodiac figures cat ∅ ∅ with
  | inl e => ([], Some e)
  | inr (fc, fm) => make_charts cat sp fc fm sorted_zodiac
  end.

End Chart.

(** ** Fixtures and the spec-side notions the statements use *)
Module Fixtures.

Import Layout.
Open Scope Q_scope.

(** Every zodiac figure present and empty. *)
Definition figs0 : gmap string (list (Z * Z)) := list_to_map (map (fun n => (n, [])) zodiac).

(** One star, of magnitude 1 at longitude 1, drawn as the figure Ari. *)
Definition cat1 : gmap Z Star := {[ 7%Z := mkStar 7 1 1 0 1 ]}.
Definition figs1 : gmap string (list (Z * Z)) := <["Ari" := [(7, 7)%Z]]> figs0.

(** Two stars at longitudes 3 and -3: a segment across the -pi/pi cut. *)
Definition cat2 : gmap Z Star := {[ 1%Z := mkStar 1 5 3 0 1; 2%Z := mkStar 2 5 (-3) 0 1 ]}.

(** The layout tables of [figs1] over [cat1]. *)
Definition layout1 : gmap string (list segment) * gmap string ext :=
  match layout_figs zodiac figs1 cat1 ∅ ∅ with inr r => r | inl _ => (∅, ∅) end.

(** The vertex longitudes of a list of segments. *)
Definition lngs (cps : list segment) : list Q := flat_map (fun '(a, b) => [a.1; b.1]) cps.

Definition is_max (l : list Q) (m : Q) : Prop := In m l /\ Forall (fun x => x <= m) l.
Definition is_min (l : list Q) (m : Q) : Prop := In m l /\ Forall (fun x => m <= x) l.

(** The spec's offset: -2pi when the figure's max longitude exceeds the
    anchor's, 0 otherwise ([None] is minus infinity). *)
Definition spec_offset (fig_max anchor_max : ext) : Q :=
  match fig_max, anchor_max with
  | Some f, Some a => if Qlt_le_dec a f then -2 * pi else 0
  | Some _, None => -2 * pi
  | None, _ => 0
  end.

(** [mx] is the running [max_lng] of the longitudes [l]. *)
Definition max_of (mx : ext) (l : list Q) : Prop :=
  match mx with None => l = [] | Some m => is_max l m end.

(** [mn] is the running [min_lng] of [l] ([None] is plus infinity). *)
Definition min_of (mn : option Q) (l : list Q) : Prop :=
  match mn with None => l = [] | Some m => is_min l m end.

(** The spec's shift: add 2pi to a vertex longitude strictly below [c]. *)
Definition spec_shift (c : Q) (v : vertex) : vertex :=
  if Qlt_le_dec v.1 c then (v.1 + 2 * pi, v.2) else v.

(** The catalog entries: keyed by their identifier, magnitude not > 7.0. *)
Definition catalog_ok (catalog : gmap Z Catalog.Star) : Prop :=
  forall k s, catalog !! k = Some s ->
    Catalog.hip_id s = k /\ Catalog.py_gt (Catalog.vmag s) Catalog.vmag_limit = false.

(** Marks in increasing order and disjoint: each starts before it ends
    and ends before the next one starts. *)
Fixpoint ordered_marks (l : list (Q * Q)) : Prop :=
  match l with
  | [] => True
  | (a, b) :: rest =>
      a < b /\ match rest with [] => True | (a', _) :: _ => b < a' end /\ ordered_marks rest
  end.

(** The raw marks of the Morse loop: each starts at or after [lo] (at
    least 2 units after the end of the previous one) and the cursor [x]
    is at least 2 units after the last end. *)
Fixpoint raw_chain (lo : Q) (l : list (Q * Q)) (x : Q) : Prop :=
  match l with
  | [] => lo <= x
  | (a, b) :: rest => lo <= a /\ a < b /\ raw_chain (b + 2) rest x
  end.

(** The float operations read as exact rationals (as in [Layout]); the
    math-module functions the radius does not use are left as given. *)
Definition exact_ops (cos sin sqrt : Q -> Q) (atan2 pow : Q -> Q -> Q) : Projection.FloatOps Q :=
  Projection.Build_FloatOps Q Qplus Qminus Qmult Qdiv pow cos sin sqrt atan2
    qlt (fun q => q) pi.




End Fixtures.

(** * Properties *)

Open Scope Q_scope.

(** ** Morse encoder *)

Lemma morse_raw_a : Morse.morse_raw "a" = inr (11, [(0, 1); (3, 6)]).
Proof. vm_compute. reflexivity. Qed.

(** The last mark of ["a"] scaled to [0, 9] ends at 6, not 9. *)
Lemma morse_coords_a_0_9 : Morse.morse_coords "a" 0 9 = inr [(0 # 9, 9 # 9); (27 # 9, 54 # 9)].
Proof. vm_compute. reflexivity. Qed.

(** C1 (counterexample): encoding "a" does not give the raw marks
    dot=(0,1), dash=(4,7) with the cursor at 12, nor a last mark ending
    at maxc (here minc=0, maxc=9). *)
Lemma morse_a_claim_counterexample :
  ~ (forall minc maxc : Q,
       (exists d a x, Morse.morse_raw "a" = inr (x, [d; a]) /\
          d.1 == 0 /\ d.2 == 1 /\ a.1 == 4 /\ a.2 == 7 /\ x == 12) /\
       (exists m1 m2, Morse.morse_coords "a" minc maxc = inr [m1; m2] /\
          m1.1 == minc /\ m2.2 == maxc)).
Proof.
  intros H. destruct (H 0 9) as [[d [a [x [Hr [_ [_ [Ha _]]]]]]] _].
  rewrite morse_raw_a in Hr. injection Hr as <- <- <-.
  vm_compute in Ha. discriminate.
Qed.

(** C1 (amended): encoding "a" gives a dot then a dash with raw
    coordinates (0,1) and (3,6), the cursor ending at 11; the returned
    marks are the raw ones under one map x -> x*s + minc, so the first
    mark starts exactly at minc. *)
Theorem morse_a_marks (minc maxc : Q) :
  Morse.morse_raw "a" = inr (11, [(0, 1); (3, 6)]) /\
  exists s, Morse.morse_coords "a" minc maxc
              = inr [(0 * s + minc, 1 * s + minc); (3 * s + minc, 6 * s + minc)] /\
            0 * s + minc == minc.
Proof.
  split; [exact morse_raw_a|].
  exists ((maxc - minc) / (11 - 2)). split.
  - unfold Morse.morse_coords. rewrite morse_raw_a. reflexivity.
  - ring.
Qed.

(** ** Figure loader *)

Section FiguresFacts.
Import Figures.

Lemma fig_run_app (pre rest : list string) figs sp out figs' sp' out' :
  fig_run pre figs sp out = LContinue figs' sp' out' ->
  fig_run (pre ++ rest) figs sp out = fig_run rest figs' sp' out'.
Proof.
  revert figs sp out. induction pre as [|l pre IH]; intros figs sp out Hrun; simpl in *.
  - congruence.
  - destruct (fig_line l figs sp out); try discriminate. auto.
Qed.

(** Reading [n] pairs from tokens that all parse. *)
Lemma read_pairs_ok (n : nat) (toks extra : list string) (zs : list Z) fig (sp : gset Z) :
  Forall2 (fun t z => py_int t = Some z) toks zs ->
  length toks = (2 * n)%nat ->
  exists fig' sp', read_pairs n (toks ++ extra) fig sp = inr (extra, fig', sp') /\
    (forall z, z ∈ sp' <-> z ∈ zs \/ z ∈ sp).
Proof.
  revert toks zs fig sp. induction n as [|n IH]; intros toks zs fig sp Hf Hlen.
  - destruct toks; [|discriminate]. inversion Hf; subst.
    exists fig, sp. split; [reflexivity|]. set_solver.
  - destruct toks as [|t1 [|t2 toks]]; try (simpl in Hlen; lia).
    inversion Hf as [|? z1 ? zs1 H1 Hf1]; subst.
    inversion Hf1 as [|? z2 ? zs2 H2 Hf2]; subst.
    simpl in Hlen.
    destruct (IH toks zs2 (fig ++ [(z1, z2)]) ({[z2]} ∪ ({[z1]} ∪ sp)) Hf2 ltac:(lia))
      as [fig' [sp' [Hr Hm]]].
    exists fig', sp'. split.
    + simpl. unfold pop_int. rewrite H1, H2. exact Hr.
    + intros z. rewrite Hm. set_solver.
Qed.

(** A line whose count and identifiers parse but leaves tokens over:
    the loop breaks, figures unchanged, the identifiers read are added
    to the used stars, and the line is printed. *)
Lemma fig_line_extra (line name cnt : string) (toks extra : list string) (n : Z) (zs : list Z)
    figs (sp : gset Z) out :
  skip_line (py_strip line) = false ->
  py_split (py_strip line) = name :: cnt :: toks ++ extra ->
  py_int cnt = Some n ->
  Forall2 (fun t z => py_int t = Some z) toks zs ->
  length toks = (2 * Z.to_nat n)%nat ->
  extra <> [] ->
  exists sp', fig_line line figs sp out = LBreak figs sp' (out ++ [extra_msg; py_strip line]) /\
    (forall z, z ∈ sp' <-> z ∈ zs \/ z ∈ sp).
Proof.
  intros Hskip Hsplit Hcnt Hf Hlen Hextra.
  destruct (read_pairs_ok (Z.to_nat n) toks extra zs [] sp Hf Hlen) as [fig' [sp' [Hr Hm]]].
  exists sp'. split; [|exact Hm].
  unfold fig_line. rewrite Hskip, Hsplit. simpl. rewrite Hcnt, Hr.
  destruct extra; [congruence|reflexivity].
Qed.

(** A line whose count token is not an integer raises [ValueError]. *)
Lemma fig_line_bad_count (line name cnt : string) (fields : list string) figs (sp : gset Z) out :
  skip_line (py_strip line) = false ->
  py_split (py_strip line) = name :: cnt :: fields ->
  py_int cnt = None ->
  fig_line line figs sp out = LRaise out ValueError.
Proof.
  intros Hskip Hsplit Hcnt. unfold fig_line. rewrite Hskip, Hsplit. simpl. rewrite Hcnt.
  reflexivity.
Qed.

(** Reading [n] pairs when a token among the first [2n] is not an
    integer: [ValueError]. *)
Lemma read_pairs_bad_id (n : nat) (toks : list string) (zs : list Z) (t : string)
    (rest : list string) fig (sp : gset Z) :
  Forall2 (fun t z => py_int t = Some z) toks zs ->
  (length toks < 2 * n)%nat ->
  py_int t = None ->
  read_pairs n (toks ++ t :: rest) fig sp = inl ValueError.
Proof.
  revert toks zs fig sp. induction n as [|n IH]; intros toks zs fig sp Hf Hlen Ht; [lia|].
  destruct toks as [|t1 [|t2 toks]].
  - simpl. unfold pop_int. rewrite Ht. reflexivity.
  - inversion Hf as [|? z1 ? ? H1 _]; subst.
    simpl. unfold pop_int. rewrite H1, Ht. reflexivity.
  - inversion Hf as [|? z1 ? zs1 H1 Hf1]; subst.
    inversion Hf1 as [|? z2 ? zs2 H2 Hf2]; subst.
    simpl in Hlen. cbn [read_pairs app]. unfold pop_int. rewrite H1, H2.
    apply (IH toks zs2); [exact Hf2|lia|exact Ht].
Qed.

(** Reading [n] pairs from fewer than [2n] tokens, all integers:
    [IndexError] from [pop(0)] on the emptied list. *)
Lemma read_pairs_short (n : nat) (toks : list string) (zs : list Z) fig (sp : gset Z) :
  Forall2 (fun t z => py_int t = Some z) toks zs ->
  (length toks < 2 * n)%nat ->
  read_pairs n toks fig sp = inl IndexError.
Proof.
  revert toks zs fig sp. induction n as [|n IH]; intros toks zs fig sp Hf Hlen; [lia|].
  destruct toks as [|t1 [|t2 toks]].
  - reflexivity.
  - inversion Hf as [|? z1 ? ? H1 _]; subst.
    simpl. unfold pop_int. rewrite H1. reflexivity.
  - inversion Hf as [|? z1 ? zs1 H1 Hf1]; subst.
    inversion Hf1 as [|? z2 ? zs2 H2 Hf2]; subst.
    simpl in Hlen. cbn [read_pairs app]. unfold pop_int. rewrite H1, H2.
    apply (IH toks zs2); [exact Hf2|lia].
Qed.

(** A line whose count parses but one of the identifier tokens it needs
    does not: [ValueError]. *)
Lemma fig_line_bad_id (line name cnt t : string) (toks rest : list string) (n : Z) (zs : list Z)
    figs (sp : gset Z) out :
  skip_line (py_strip line) = false ->
  py_split (py_strip line) = name :: cnt :: toks ++ t :: rest ->
  py_int cnt = Some n ->
  Forall2 (fun t z => py_int t = Some z) toks zs ->
  (length toks < 2 * Z.to_nat n)%nat ->
  py_int t = None ->
  fig_line line figs sp out = LRaise out ValueError.
Proof.
  intros Hskip Hsplit Hcnt Hf Hlen Ht. unfold fig_line. rewrite Hskip, Hsplit. simpl.
  rewrite Hcnt, (read_pairs_bad_id _ toks zs t rest [] sp Hf Hlen Ht). reflexivity.
Qed.

(** A line with a name only, or with fewer identifier tokens than its
    count needs (all of them integers): [IndexError]. *)
Lemma fig_line_short (line name : string) (fields : list string) figs (sp : gset Z) out :
  skip_line (py_strip line) = false ->
  py_split (py_strip line) = name :: fields ->
  (fields = [] \/ exists cnt toks n zs, fields = cnt :: toks /\ py_int cnt = Some n /\
      Forall2 (fun t z => py_int t = Some z) toks zs /\ (length toks < 2 * Z.to_nat n)%nat) ->
  fig_line line figs sp out = LRaise out IndexError.
Proof.
  intros Hskip Hsplit Hf. unfold fig_line. rewrite Hskip, Hsplit. simpl.
  destruct Hf as [->|[cnt [toks [n [zs [-> [Hcnt [Hf Hlen]]]]]]]]; [reflexivity|].
  simpl. rewrite Hcnt, (read_pairs_short _ toks zs [] sp Hf Hlen). reflexivity.
Qed.

End FiguresFacts.

(** C2 (counterexample): [get_figures] does not return on every input; a
    malformed identifier token raises [ValueError] out of it. *)
Lemma get_figures_claim_counterexample :
  ~ (forall lines, exists r, (Figures.get_figures lines).2 = inr r).
Proof.
  intros H. destruct (H ["Ori 1 1OO 200"]) as [r Hr].
  vm_compute in Hr. discriminate.
Qed.

(** C2 (amended): a line whose tokens parse but leave tokens over stops
    the loop: the line is printed after the message, and the result is
    the figures of the earlier lines (whatever follows is not read); a
    line whose count, or one of the identifiers its count calls for, is
    not an integer raises [ValueError] out of [get_figures]; a line with
    a name only, or with fewer identifiers than its count calls for,
    raises [IndexError] out of it; "Ori 1 100 200" yields
    Ori = [(100,200)] and "Ori 1 100 200 999" halts before any later
    line. *)
Theorem get_figures_stops_at_extra_tokens :
  (forall (pre : list string) (bad : string) (rest : list string) figs sp out
          (name cnt : string) (toks extra : list string) (n : Z) (zs : list Z),
     Figures.fig_run pre ∅ ∅ [] = Figures.LContinue figs sp out ->
     Figures.skip_line (py_strip bad) = false ->
     py_split (py_strip bad) = name :: cnt :: toks ++ extra ->
     py_int cnt = Some n ->
     Forall2 (fun t z => py_int t = Some z) toks zs ->
     length toks = (2 * Z.to_nat n)%nat ->
     extra <> [] ->
     exists sp', Figures.get_figures (pre ++ bad :: rest)
       = (out ++ [Figures.extra_msg; py_strip bad] ++ Figures.summary figs sp', inr (figs, sp'))) /\
  (forall (pre : list string) (bad : string) (rest : list string) figs sp out
          (name cnt : string) (fields : list string),
     Figures.fig_run pre ∅ ∅ [] = Figures.LContinue figs sp out ->
     Figures.skip_line (py_strip bad) = false ->
     py_split (py_strip bad) = name :: cnt :: fields ->
     py_int cnt = None ->
     Figures.get_figures (pre ++ bad :: rest) = (out, inl ValueError)) /\
  (forall (pre : list string) (bad : string) (rest : list string) figs sp out
          (name cnt t : string) (toks more : list string) (n : Z) (zs : list Z),
     Figures.fig_run pre ∅ ∅ [] = Figures.LContinue figs sp out ->
     Figures.skip_line (py_strip bad) = false ->
     py_split (py_strip bad) = name :: cnt :: toks ++ t :: more ->
     py_int cnt = Some n ->
     Forall2 (fun t z => py_int t = Some z) toks zs ->
     (length toks < 2 * Z.to_nat n)%nat ->
     py_int t = None ->
     Figures.get_figures (pre ++ bad :: rest) = (out, inl ValueError)) /\
  (forall (pre : list string) (bad : string) (rest : list string) figs sp out
          (name : string) (fields : list string),
     Figures.fig_run pre ∅ ∅ [] = Figures.LContinue figs sp out ->
     Figures.skip_line (py_strip bad) = false ->
     py_split (py_strip bad) = name :: fields ->
     (fields = [] \/ exists cnt toks n zs, fields = cnt :: toks /\ py_int cnt = Some n /\
        Forall2 (fun t z => py_int t = Some z) toks zs /\ (length toks < 2 * Z.to_nat n)%nat) ->
     Figures.get_figures (pre ++ bad :: rest) = (out, inl IndexError)) /\
  (Figures.get_figures ["Ori 1 100 200"]).2 = inr ({[ "Ori" := [(100, 200)%Z] ]}, {[ 100%Z; 200%Z ]}) /\
  (exists sp, (Figures.get_figures ["Ori 1 100 200 999"; "Leo 1 1 2"]).2 = inr (∅, sp)).
Proof.
  split; [|split; [|split; [|split; [|split]]]].
  - intros pre bad rest figs sp out name cnt toks extra n zs Hpre Hskip Hsplit Hcnt Hf Hlen Hex.
    destruct (fig_line_extra bad name cnt toks extra n zs figs sp out Hskip Hsplit Hcnt Hf Hlen Hex)
      as [sp' [Hl _]].
    exists sp'. unfold Figures.get_figures. rewrite (fig_run_app _ _ _ _ _ _ _ _ Hpre).
    simpl. rewrite Hl. rewrite <- app_assoc. reflexivity.
  - intros pre bad rest figs sp out name cnt fields Hpre Hskip Hsplit Hcnt.
    unfold Figures.get_figures. rewrite (fig_run_app _ _ _ _ _ _ _ _ Hpre).
    simpl. rewrite (fig_line_bad_count bad name cnt fields figs sp out Hskip Hsplit Hcnt).
    reflexivity.
  - intros pre bad rest figs sp out name cnt t toks more n zs Hpre Hskip Hsplit Hcnt Hf Hlen Ht.
    unfold Figures.get_figures. rewrite (fig_run_app _ _ _ _ _ _ _ _ Hpre).
    simpl. rewrite (fig_line_bad_id bad name cnt t toks more n zs figs sp out
                      Hskip Hsplit Hcnt Hf Hlen Ht).
    reflexivity.
  - intros pre bad rest figs sp out name fields Hpre Hskip Hsplit Hf.
    unfold Figures.get_figures. rewrite (fig_run_app _ _ _ _ _ _ _ _ Hpre).
    simpl. rewrite (fig_line_short bad name fields figs sp out Hskip Hsplit Hf).
    reflexivity.
  - vm_compute. reflexivity.
  - eexists. vm_compute. reflexivity.
Qed.

Lemma get_figures_stops_at_extra_tokens_witness :
  Figures.fig_run ["Leo 1 1 2"] ∅ ∅ [] = Figures.LContinue {[ "Leo" := [(1, 2)%Z] ]} {[ 1%Z; 2%Z ]} [] /\
  (exists sp', Figures.get_figures (["Leo 1 1 2"] ++ "Ori 1 100 200 999" :: ["Tau 1 3 4"])
    = ([Figures.extra_msg; py_strip "Ori 1 100 200 999"] ++
         Figures.summary {[ "Leo" := [(1, 2)%Z] ]} sp',
       inr ({[ "Leo" := [(1, 2)%Z] ]}, sp'))) /\
  Figures.get_figures (["Leo 1 1 2"] ++ "Ori 1 1OO 200" :: ["Tau 1 3 4"]) = ([], inl ValueError) /\
  Figures.get_figures (["Leo 1 1 2"] ++ "Ori 2 100 200" :: ["Tau 1 3 4"]) = ([], inl IndexError) /\
  Figures.get_figures (["Leo 1 1 2"] ++ "Ori" :: ["Tau 1 3 4"]) = ([], inl IndexError).
Proof.
  assert (Hpre : Figures.fig_run ["Leo 1 1 2"] ∅ ∅ []
                 = Figures.LContinue {[ "Leo" := [(1, 2)%Z] ]} {[ 1%Z; 2%Z ]} [])
    by (vm_compute; reflexivity).
  split; [exact Hpre|]. split; [|split; [|split]].
  2: { apply (proj1 (proj2 (proj2 get_figures_stops_at_extra_tokens))
                ["Leo 1 1 2"] "Ori 1 1OO 200" ["Tau 1 3 4"] _ _ [] "Ori" "1" "1OO" [] ["200"]
                1%Z [] Hpre); try (vm_compute; reflexivity).
       - constructor.
       - simpl. lia. }
  2: { apply (proj1 (proj2 (proj2 (proj2 get_figures_stops_at_extra_tokens)))
                ["Leo 1 1 2"] "Ori 2 100 200" ["Tau 1 3 4"] _ _ [] "Ori" ["2"; "100"; "200"] Hpre);
         try (vm_compute; reflexivity).
       right. exists "2"%string, ["100"; "200"], 2%Z, [100%Z; 200%Z].
       split; [reflexivity|]. split; [vm_compute; reflexivity|].
       split; [repeat constructor|simpl; lia]. }
  2: { apply (proj1 (proj2 (proj2 (proj2 get_figures_stops_at_extra_tokens)))
                ["Leo 1 1 2"] "Ori" ["Tau 1 3 4"] _ _ [] "Ori" [] Hpre);
         try (vm_compute; reflexivity).
       left. reflexivity. }
  apply (proj1 get_figures_stops_at_extra_tokens ["Leo 1 1 2"] "Ori 1 100 200 999" ["Tau 1 3 4"]
           {[ "Leo" := [(1, 2)%Z] ]} {[ 1%Z; 2%Z ]} [] "Ori" "1" ["100"; "200"] ["999"] 1%Z [100%Z; 200%Z]);
    try (vm_compute; reflexivity).
  - repeat constructor.
  - discriminate.
Defined.

(** C10: when [get_figures] stops at a line with tokens left over, the
    returned used-stars set holds every identifier read from that line,
    while the returned figures are exactly those of the earlier lines. *)
Theorem get_figures_used_stars_include_offending_line
    (pre : list string) (bad : string) (rest : list string) figs sp out
    (name cnt : string) (toks extra : list string) (n : Z) (zs : list Z) :
  Figures.fig_run pre ∅ ∅ [] = Figures.LContinue figs sp out ->
  Figures.skip_line (py_strip bad) = false ->
  py_split (py_strip bad) = name :: cnt :: toks ++ extra ->
  py_int cnt = Some n ->
  Forall2 (fun t z => py_int t = Some z) toks zs ->
  length toks = (2 * Z.to_nat n)%nat ->
  extra <> [] ->
  exists sp', (Figures.get_figures (pre ++ bad :: rest)).2 = inr (figs, sp') /\
    forall z, In z zs -> z ∈ sp'.
Proof.
  intros Hpre Hskip Hsplit Hcnt Hf Hlen Hex.
  destruct (fig_line_extra bad name cnt toks extra n zs figs sp out Hskip Hsplit Hcnt Hf Hlen Hex)
    as [sp' [Hl Hm]].
  exists sp'. split.
  - unfold Figures.get_figures. rewrite (fig_run_app _ _ _ _ _ _ _ _ Hpre). simpl. rewrite Hl.
    reflexivity.
  - intros z Hz. apply Hm. left. apply list_elem_of_In. exact Hz.
Qed.

Lemma get_figures_used_stars_include_offending_line_witness :
  exists sp', (Figures.get_figures ([] ++ "Ori 1 100 200 999" :: [])).2 = inr (∅, sp') /\
    forall z, In z [100%Z; 200%Z] -> z ∈ sp'.
Proof.
  apply (get_figures_used_stars_include_offending_line [] "Ori 1 100 200 999" [] ∅ ∅ []
           "Ori" "1" ["100"; "200"] ["999"] 1%Z [100%Z; 200%Z]);
    try (vm_compute; reflexivity).
  - repeat constructor.
  - discriminate.
Defined.

(** ** Catalog loader *)

Section CatalogFacts.
Import Catalog Fixtures.

Lemma make_star_error (hid : Z) (r d v : pyfloat) (e : exn) :
  make_star hid r d v = inl e -> e = MathDomainError.
Proof.
  unfold make_star. destruct (is_infinite d || is_infinite r); congruence.
Qed.

Lemma make_star_ok (hid : Z) (r d v : pyfloat) (s : Star) :
  make_star hid r d v = inr s -> s = mkStar hid r d v.
Proof.
  unfold make_star. destruct (is_infinite d || is_infinite r); congruence.
Qed.

Lemma load_lines_raised (lines : list bytes) catalog discarded out out' e :
  load_lines lines catalog discarded out = Raised out' e -> e = MathDomainError.
Proof.
  revert catalog discarded out. induction lines as [|line rest IH]; intros catalog discarded out H;
    simpl in H; [discriminate|].
  destruct (parse_fields line) as [[[[hid r] d] v]|]; [|eauto].
  destruct (py_gt v vmag_limit); [eauto|].
  destruct (make_star hid r d v) as [e'|s] eqn:Hs; [|eauto].
  injection H as _ <-. eapply make_star_error; eauto.
Qed.

Lemma load_lines_count (lines : list bytes) catalog discarded out catalog' discarded' out' :
  load_lines lines catalog discarded out = Loaded catalog' discarded' out' ->
  (size catalog' + discarded' <= size catalog + discarded + length lines)%nat.
Proof.
  revert catalog discarded out. induction lines as [|line rest IH]; intros catalog discarded out H;
    simpl in H.
  - injection H as <- <- <-. simpl. lia.
  - simpl. destruct (parse_fields line) as [[[[hid r] d] v]|].
    + destruct (py_gt v vmag_limit); [apply IH in H; lia|].
      destruct (make_star hid r d v) as [e'|s]; [discriminate|].
      apply IH in H. rewrite map_size_insert in H.
      destruct (catalog !! hid); simpl in H; lia.
    + apply IH in H. lia.
Qed.

Lemma load_lines_catalog_ok (lines : list bytes) catalog discarded out catalog' discarded' out' :
  catalog_ok catalog ->
  load_lines lines catalog discarded out = Loaded catalog' discarded' out' ->
  catalog_ok catalog'.
Proof.
  revert catalog discarded out. induction lines as [|line rest IH]; intros catalog discarded out Hok H;
    simpl in H.
  - injection H as <- _ _. exact Hok.
  - destruct (parse_fields line) as [[[[hid r] d] v]|]; [|eauto].
    destruct (py_gt v vmag_limit) eqn:Hv; [eauto|].
    destruct (make_star hid r d v) as [e'|s] eqn:Hs; [discriminate|].
    apply make_star_ok in Hs. subst s.
    eapply IH; [|exact H].
    intros k s Hk. destruct (decide (k = hid)) as [->|Hne].
    + rewrite lookup_insert_eq in Hk. injection Hk as <-. simpl. auto.
    + rewrite lookup_insert_ne in Hk by congruence. auto.
Qed.

End CatalogFacts.

(** C5: no parse error leaves [load_hip_catalog] (the only exception
    that can is the math-domain error of [Star.__init__]); a line whose
    fields do not all parse, for instance a non-numeric identifier, is
    discarded with the count raised by exactly one and the loop goes on
    with the next line; and loaded + discarded <= lines read. *)
Theorem load_hip_catalog_discards_unparsable :
  (forall lines out e, Catalog.load_hip_catalog lines = (out, inl e) -> e = MathDomainError) /\
  (forall line rest catalog discarded out,
     Catalog.parse_fields line = None ->
     Catalog.load_lines (line :: rest) catalog discarded out
     = Catalog.load_lines rest catalog (S discarded) (out ++ [Catalog.Discarding (firstn 48 line)])) /\
  (forall line, Catalog.py_int_bytes (Catalog.py_slice 0 6 line) = None ->
     Catalog.parse_fields line = None) /\
  (forall lines catalog discarded out,
     Catalog.load_lines lines ∅ 0 [] = Catalog.Loaded catalog discarded out ->
     (size catalog + discarded <= length lines)%nat).
Proof.
  split; [|split; [|split]].
  - intros lines out e H. unfold Catalog.load_hip_catalog in H.
    destruct (Catalog.load_lines lines ∅ 0 []) eqn:Hl; [discriminate|].
    injection H as <- <-. eapply load_lines_raised; eauto.
  - intros line rest catalog discarded out H. simpl. rewrite H. reflexivity.
  - intros line H. unfold Catalog.parse_fields. rewrite H. reflexivity.
  - intros lines catalog discarded out H. apply load_lines_count in H.
    rewrite map_size_empty in H. lia.
Qed.

Lemma load_hip_catalog_discards_unparsable_witness :
  Catalog.load_lines [Catalog.catalog_line "x12" "1" "1" "1"] ∅ 0 []
  = Catalog.load_lines [] ∅ 1
      [Catalog.Discarding (firstn 48 (Catalog.catalog_line "x12" "1" "1" "1"))] /\
  Catalog.parse_fields (Catalog.catalog_line "x12" "1" "1" "1") = None.
Proof.
  split.
  - apply (proj1 (proj2 load_hip_catalog_discards_unparsable)). vm_compute. reflexivity.
  - apply (proj1 (proj2 (proj2 load_hip_catalog_discards_unparsable))). vm_compute. reflexivity.
Defined.

(** C6 (counterexample): a line whose magnitude field reads "nan" is
    kept, and its magnitude is not <= 7.0. *)
Lemma catalog_threshold_claim_counterexample :
  ~ (forall lines catalog, (Catalog.load_hip_catalog lines).2 = inr catalog ->
       forall k s, catalog !! k = Some s -> Catalog.py_le (Catalog.vmag s) Catalog.vmag_limit = true).
Proof.
  intros H.
  assert (Hk : exists catalog s, (Catalog.load_hip_catalog
                 [Catalog.catalog_line "12" "1.5" "-0.25" "nan"]).2 = inr catalog /\
               catalog !! 12%Z = Some s /\ Catalog.vmag s = Catalog.NaN).
  { eexists _, _. split; [vm_compute; reflexivity|]. split; [vm_compute; reflexivity|].
    reflexivity. }
  destruct Hk as [catalog [s [Hc [Hs Hv]]]].
  pose proof (H _ _ Hc _ _ Hs) as Hle. rewrite Hv in Hle. discriminate.
Qed.

(** C6 (amended): the catalog maps each identifier to the one record
    built for it (identifiers unique) and keeps only stars whose
    magnitude is not greater than 7.0 (magnitude <= 7.0, or nan); a line
    whose magnitude is greater than 7.0 is skipped without a record and
    without changing the discarded count. *)
Theorem catalog_keeps_magnitudes_not_above_limit :
  (forall lines catalog, (Catalog.load_hip_catalog lines).2 = inr catalog ->
     forall k s, catalog !! k = Some s ->
       Catalog.hip_id s = k /\ Catalog.py_gt (Catalog.vmag s) Catalog.vmag_limit = false) /\
  (forall v, Catalog.py_gt v Catalog.vmag_limit = false <->
     Catalog.py_le v Catalog.vmag_limit = true \/ v = Catalog.NaN) /\
  (forall line rest catalog discarded out hid r d v,
     Catalog.parse_fields line = Some (hid, r, d, v) ->
     Catalog.py_gt v Catalog.vmag_limit = true ->
     Catalog.load_lines (line :: rest) catalog discarded out
     = Catalog.load_lines rest catalog discarded out).
Proof.
  split; [|split].
  - intros lines catalog H. unfold Catalog.load_hip_catalog in H.
    destruct (Catalog.load_lines lines ∅ 0 []) eqn:Hl; [|discriminate].
    simpl in H. injection H as <-.
    eapply load_lines_catalog_ok; [|exact Hl]. intros k s Hk. rewrite lookup_empty in Hk. discriminate.
  - intros [q| | |]; simpl; split; auto; try discriminate.
    + intros Hq. left. destruct (Qle_bool q 7); [reflexivity|discriminate].
    + intros [Hq|Hq]; [rewrite Hq; reflexivity|discriminate].
    + intros [Hq|Hq]; discriminate.
  - intros line rest catalog discarded out hid r d v Hp Hg. simpl. rewrite Hp, Hg. reflexivity.
Qed.

Lemma catalog_keeps_magnitudes_not_above_limit_witness :
  Catalog.load_lines [Catalog.catalog_line "12" "1.5" "-0.25" "8.5"] ∅ 0 []
  = Catalog.load_lines [] ∅ 0 [].
Proof.
  apply (proj2 (proj2 catalog_keeps_magnitudes_not_above_limit)
           _ _ _ _ _ 12%Z (Catalog.Fin 1.5) (Catalog.Fin (-0.25)) (Catalog.Fin 8.5));
    vm_compute; reflexivity.
Defined.

(** ** Projection *)

(** C7: for every (ra, dec) the ecliptic coordinates of a Star are the
    stated rotation of the equatorial unit vector by the obliquity
    23.4376*pi/180 about the x axis, followed by atan2; [Star_init] is a
    pure function of its arguments. *)
Theorem Star_init_ecliptic_rotation {F : Type} `{Projection.FloatOps F}
    (hip_id : Z) (ra dec vmag : F) :
  let s := Projection.Star_init hip_id ra dec vmag in
  let obl := Projection.f_div (Projection.f_mul (Projection.f_lit 23.4376) Projection.f_pi)
                              (Projection.f_lit 180) in
  let equx := Projection.f_mul (Projection.f_cos dec) (Projection.f_cos ra) in
  let equy := Projection.f_mul (Projection.f_cos dec) (Projection.f_sin ra) in
  let equz := Projection.f_sin dec in
  let eclx := equx in
  let ecly := Projection.f_add (Projection.f_mul equy (Projection.f_cos obl))
                               (Projection.f_mul equz (Projection.f_sin obl)) in
  let eclz := Projection.f_sub (Projection.f_mul equz (Projection.f_cos obl))
                               (Projection.f_mul equy (Projection.f_sin obl)) in
  Projection.ecl_lng s = Projection.f_atan2 ecly eclx /\
  Projection.ecl_lat s =
    Projection.f_atan2 eclz
      (Projection.f_sqrt (Projection.f_add (Projection.f_pow eclx (Projection.f_lit 2))
                                           (Projection.f_pow ecly (Projection.f_lit 2)))) /\
  Projection.ra s = ra /\ Projection.dec s = dec /\ Projection.hip_id s = hip_id.
Proof. repeat split. Qed.

(** ** Layout of a figure *)

Section LayoutFacts.
Import Layout Fixtures.

Lemma qlt_spec (a b : Q) : qlt a b = true <-> a < b.
Proof.
  unfold qlt. rewrite negb_true_iff. split.
  - intros H. apply Qnot_le_lt. intros Hle. apply Qle_bool_iff in Hle. congruence.
  - intros H. destruct (Qle_bool b a) eqn:E; [|reflexivity].
    apply Qle_bool_iff in E. exfalso. apply (Qlt_not_le a b); assumption.
Qed.

Lemma qlt_false (a b : Q) : qlt a b = false <-> b <= a.
Proof.
  split.
  - intros H. apply Qnot_lt_le. intros Hl. apply qlt_spec in Hl. congruence.
  - intros H. destruct (qlt a b) eqn:E; [|reflexivity].
    apply qlt_spec in E. exfalso. apply (Qlt_not_le a b); assumption.
Qed.

Lemma lngs_app (c1 c2 : list segment) : lngs (c1 ++ c2) = lngs c1 ++ lngs c2.
Proof. unfold lngs. apply flat_map_app. Qed.

Lemma lngs_nil (cps : list segment) : lngs cps = [] -> cps = [].
Proof. destruct cps as [|[a b] r]; [reflexivity|discriminate]. Qed.

Lemma py_max_step (mx : ext) (l : list Q) (x : Q) :
  max_of mx l -> max_of (Some (py_max mx x)) (l ++ [x]).
Proof.
  destruct mx as [a|]; simpl.
  - intros [Hin Hall]. destruct (qlt a x) eqn:E.
    + apply qlt_spec in E. split; [apply in_or_app; right; left; reflexivity|].
      apply Forall_app. split; [|constructor; [apply Qle_refl|constructor]].
      eapply Forall_impl; [exact Hall|]. intros y Hy. apply Qlt_le_weak. exact (Qle_lt_trans _ a _ Hy E).
    + apply qlt_false in E. split; [apply in_or_app; left; exact Hin|].
      apply Forall_app. split; [exact Hall|constructor; [exact E|constructor]].
  - intros ->. split; [left; reflexivity|constructor; [apply Qle_refl|constructor]].
Qed.

Lemma py_min_step (mn : option Q) (l : list Q) (x : Q) :
  min_of mn l -> min_of (Some (py_min mn x)) (l ++ [x]).
Proof.
  destruct mn as [a|]; simpl.
  - intros [Hin Hall]. destruct (qlt x a) eqn:E.
    + apply qlt_spec in E. split; [apply in_or_app; right; left; reflexivity|].
      apply Forall_app. split; [|constructor; [apply Qle_refl|constructor]].
      eapply Forall_impl; [exact Hall|]. intros y Hy. apply Qlt_le_weak. exact (Qlt_le_trans _ a _ E Hy).
    + apply qlt_false in E. split; [apply in_or_app; left; exact Hin|].
      apply Forall_app. split; [exact Hall|constructor; [exact E|constructor]].
  - intros ->. split; [left; reflexivity|constructor; [apply Qle_refl|constructor]].
Qed.

Lemma collect_coords_min_max (cat : gmap Z Star) (pairs : list (Z * Z)) cps0 mn0 mx0 cps mn mx :
  min_of mn0 (lngs cps0) -> max_of mx0 (lngs cps0) ->
  collect_coords cat pairs cps0 mn0 mx0 = inr (cps, mn, mx) ->
  min_of mn (lngs cps) /\ max_of mx (lngs cps).
Proof.
  revert cps0 mn0 mx0. induction pairs as [|[id1 id2] rest IH]; intros cps0 mn0 mx0 Hmn Hmx H;
    cbn [collect_coords] in H.
  - injection H as <- <- <-. auto.
  - unfold mbind, exn_mbind in H.
    destruct (dict_get cat id1) as [e|s1]; [discriminate|]. cbv beta iota in H.
    destruct (dict_get cat id2) as [e|s2]; [discriminate|]. cbv beta iota in H.
    eapply IH; [| |exact H]; rewrite lngs_app;
      replace (lngs [((ecl_lng s1, ecl_lat s1), (ecl_lng s2, ecl_lat s2))])
        with ([ecl_lng s1] ++ [ecl_lng s2]) by reflexivity; rewrite app_assoc.
    + apply py_min_step, py_min_step. exact Hmn.
    + apply py_max_step, py_max_step. exact Hmx.
Qed.

Lemma shift_coords_spec (c : Q) (cps : list segment) (mx0 : ext) (l0 : list Q) cps' mx' :
  max_of mx0 l0 ->
  shift_coords c cps mx0 = (cps', mx') ->
  cps' = map (fun '(a, b) => (shift c a, shift c b)) cps /\ max_of mx' (l0 ++ lngs cps').
Proof.
  revert mx0 l0 cps' mx'. induction cps as [|[v1 v2] rest IH]; intros mx0 l0 cps' mx' Hmx H;
    cbn [shift_coords] in H.
  - injection H as <- <-. simpl. rewrite app_nil_r. auto.
  - destruct (shift_coords c rest (Some (py_max (Some (py_max mx0 (shift c v1).1)) (shift c v2).1)))
      as [rest' m'] eqn:Hr.
    injection H as <- <-.
    assert (Hm2 : max_of (Some (py_max (Some (py_max mx0 (shift c v1).1)) (shift c v2).1))
                    ((l0 ++ [(shift c v1).1]) ++ [(shift c v2).1])).
    { apply py_max_step, py_max_step. exact Hmx. }
    destruct (IH _ _ _ _ Hm2 Hr) as [-> Hm]. split; [reflexivity|].
    simpl. rewrite <- !app_assoc in Hm. exact Hm.
Qed.

Lemma is_max_unique (l : list Q) (a b : Q) : is_max l a -> is_max l b -> a == b.
Proof.
  intros [Ha Fa] [Hb Fb]. apply Qle_antisym.
  - rewrite List.Forall_forall in Fb. apply Fb. exact Ha.
  - rewrite List.Forall_forall in Fa. apply Fa. exact Hb.
Qed.

Lemma is_min_unique (l : list Q) (a b : Q) : is_min l a -> is_min l b -> a == b.
Proof.
  intros [Ha Fa] [Hb Fb]. apply Qle_antisym.
  - rewrite List.Forall_forall in Fa. apply Fa. exact Hb.
  - rewrite List.Forall_forall in Fb. apply Fb. exact Ha.
Qed.

Lemma shift_spec_shift (c c' : Q) (v : vertex) : c == c' -> shift c v = spec_shift c' v.
Proof.
  intros Hc. unfold shift, spec_shift.
  destruct (qlt v.1 c) eqn:E; destruct (Qlt_le_dec v.1 c') as [Hl|Hl]; try reflexivity.
  - apply qlt_spec in E. exfalso. rewrite Hc in E. apply (Qlt_not_le _ _ E Hl).
  - apply qlt_false in E. exfalso. rewrite Hc in E. apply (Qlt_not_le _ _ Hl E).
Qed.

End LayoutFacts.

(** C3: for a figure whose collected vertex longitudes span more than
    pi/4 (max minus min), every vertex longitude strictly below the
    midpoint (min+max)/2 is increased by 2pi, and the recorded
    max-longitude is the maximum of the shifted longitudes; a figure
    whose span is at most pi/4 keeps its vertices and its raw maximum
    (and a figure without vertices records minus infinity). *)
Theorem figure_layout_wraparound (cat : gmap Z Layout.Star) (pairs : list (Z * Z))
    (cps : list Layout.segment) (mn mx : Layout.ext) (coords : list Layout.segment)
    (fmx : Layout.ext) :
  Layout.collect_coords cat pairs [] None None = inr (cps, mn, mx) ->
  Layout.figure_layout cat pairs = inr (coords, fmx) ->
  (forall lo hi, Fixtures.is_min (Fixtures.lngs cps) lo -> Fixtures.is_max (Fixtures.lngs cps) hi ->
     Layout.pi / 4 < hi - lo ->
     coords = map (fun '(a, b) => (Fixtures.spec_shift ((lo + hi) / 2) a,
                                   Fixtures.spec_shift ((lo + hi) / 2) b)) cps /\
     exists m, fmx = Some m /\ Fixtures.is_max (Fixtures.lngs coords) m) /\
  (forall lo hi, Fixtures.is_min (Fixtures.lngs cps) lo -> Fixtures.is_max (Fixtures.lngs cps) hi ->
     hi - lo <= Layout.pi / 4 ->
     coords = cps /\ exists m, fmx = Some m /\ m == hi) /\
  (Fixtures.lngs cps = [] -> coords = cps /\ fmx = None).
Proof.
  intros Hc Hf.
  destruct (collect_coords_min_max cat pairs [] None None cps mn mx eq_refl eq_refl Hc) as [Hmn Hmx].
  unfold Layout.figure_layout, mbind, exn_mbind in Hf. rewrite Hc in Hf. cbv beta iota in Hf.
  split; [|split].
  - intros lo hi Hlo Hhi Hspan.
    destruct mn as [lo'|]; [|simpl in Hmn; rewrite Hmn in Hlo; destruct Hlo as [[] _]].
    destruct mx as [hi'|]; [|simpl in Hmx; rewrite Hmx in Hlo; destruct Hlo as [[] _]].
    pose proof (is_min_unique _ _ _ Hmn Hlo) as Elo.
    pose proof (is_max_unique _ _ _ Hmx Hhi) as Ehi.
    destruct (Layout.qlt (Layout.pi / 4) (hi' - lo')) eqn:E.
    + injection Hf as Hs.
      destruct (shift_coords_spec _ cps None [] coords fmx eq_refl Hs) as [Hco Hm].
      split.
      * rewrite Hco. apply map_ext. intros [a b].
        assert (Hcen : (lo' + hi') / 2 == (lo + hi) / 2) by (rewrite Elo, Ehi; reflexivity).
        rewrite !(shift_spec_shift _ _ _ Hcen). reflexivity.
      * destruct fmx as [m|].
        -- exists m. split; [reflexivity|]. exact Hm.
        -- exfalso. simpl in Hm. apply lngs_nil in Hm. rewrite Hm in Hco.
           symmetry in Hco. apply map_eq_nil in Hco. subst cps. destruct Hlo as [[] _].
    + apply qlt_false in E. exfalso. rewrite Elo, Ehi in E.
      apply (Qlt_not_le _ _ Hspan E).
  - intros lo hi Hlo Hhi Hspan.
    destruct mn as [lo'|]; [|simpl in Hmn; rewrite Hmn in Hlo; destruct Hlo as [[] _]].
    destruct mx as [hi'|]; [|simpl in Hmx; rewrite Hmx in Hlo; destruct Hlo as [[] _]].
    pose proof (is_min_unique _ _ _ Hmn Hlo) as Elo.
    pose proof (is_max_unique _ _ _ Hmx Hhi) as Ehi.
    destruct (Layout.qlt (Layout.pi / 4) (hi' - lo')) eqn:E.
    + apply qlt_spec in E. exfalso. rewrite Elo, Ehi in E. apply (Qlt_not_le _ _ E Hspan).
    + injection Hf as <- <-. split; [reflexivity|]. exists hi'. split; [reflexivity|exact Ehi].
  - intros Hnil. rewrite Hnil in Hmn, Hmx.
    destruct mn as [lo'|]; [destruct Hmn as [[] _]|].
    destruct mx as [hi'|]; [destruct Hmx as [[] _]|].
    injection Hf as <- <-. split; reflexivity.
Qed.

Lemma figure_layout_wraparound_witness :
  exists cps mn mx coords fmx,
    Layout.collect_coords Fixtures.cat2 [(1, 2)%Z] [] None None = inr (cps, mn, mx) /\
    Layout.figure_layout Fixtures.cat2 [(1, 2)%Z] = inr (coords, fmx) /\
    ((forall lo hi, Fixtures.is_min (Fixtures.lngs cps) lo -> Fixtures.is_max (Fixtures.lngs cps) hi ->
       Layout.pi / 4 < hi - lo ->
       coords = map (fun '(a, b) => (Fixtures.spec_shift ((lo + hi) / 2) a,
                                     Fixtures.spec_shift ((lo + hi) / 2) b)) cps /\
       exists m, fmx = Some m /\ Fixtures.is_max (Fixtures.lngs coords) m) /\
     (forall lo hi, Fixtures.is_min (Fixtures.lngs cps) lo -> Fixtures.is_max (Fixtures.lngs cps) hi ->
       hi - lo <= Layout.pi / 4 ->
       coords = cps /\ exists m, fmx = Some m /\ m == hi) /\
     (Fixtures.lngs cps = [] -> coords = cps /\ fmx = None)).
Proof.
  do 5 eexists. split; [vm_compute; reflexivity|]. split; [vm_compute; reflexivity|].
  apply figure_layout_wraparound with (pairs := [(1, 2)%Z]) (cat := Fixtures.cat2) (mn := Some (-3)) (mx := Some 3);
    vm_compute; reflexivity.
Defined.

(** ** Figures layer *)

Section FiguresLayerFacts.
Import Layout Chart Fixtures.

Lemma offset_spec_offset (fn fa : ext) :
  (if ext_gt fn fa then -2 * pi else 0) = spec_offset fn fa.
Proof.
  destruct fn as [f|], fa as [a|]; simpl; try reflexivity.
  destruct (qlt a f) eqn:E; destruct (Qlt_le_dec a f) as [H|H]; try reflexivity.
  - apply qlt_spec in E. exfalso. apply (Qlt_not_le _ _ E H).
  - apply qlt_false in E. exfalso. apply (Qlt_not_le _ _ H E).
Qed.

Lemma figures_layer_spec (names : list string) (fc : gmap string (list segment))
    (fm : gmap string ext) (anchor : string) (max_lng fa : ext) :
  fm !! anchor = Some fa ->
  Forall (fun n => is_Some (fc !! n) /\ is_Some (fm !! n)) names ->
  figures_layer names fc fm anchor max_lng
  = inr (flat_map (fun n => map (segment_line (spec_offset (fm !!! n) fa) max_lng) (fc !!! n)) names).
Proof.
  intros Ha Hall. induction Hall as [|n rest [[c Hc] [f Hf]] Hrest IH]; [reflexivity|].
  cbn [figures_layer]. unfold mbind, exn_mbind, dict_get.
  rewrite Hc, Hf, Ha. cbv beta iota. fold (@dict_get string _ _ ext).
  rewrite IH. cbn [flat_map]. rewrite (lookup_total_correct _ _ _ Hc), (lookup_total_correct _ _ _ Hf).
  rewrite offset_spec_offset. reflexivity.
Qed.

End FiguresLayerFacts.

(** C8: in the chart of anchor A, the segments of every zodiac figure F
    are drawn with their longitudes shifted by exactly -2pi when F's
    recorded max-longitude exceeds A's, and by 0 otherwise. *)
Theorem figures_layer_offsets (fc : gmap string (list Layout.segment))
    (fm : gmap string Layout.ext) (anchor : string) (max_lng fa : Layout.ext) :
  fm !! anchor = Some fa ->
  Forall (fun n => is_Some (fc !! n) /\ is_Some (fm !! n)) Layout.zodiac ->
  Chart.figures_layer Layout.zodiac fc fm anchor max_lng
  = inr (flat_map (fun n => map (Chart.segment_line (Fixtures.spec_offset (fm !!! n) fa) max_lng)
                                (fc !!! n))
                  Layout.zodiac).
Proof. apply figures_layer_spec. Qed.

Lemma figures_layer_offsets_witness :
  Chart.figures_layer Layout.zodiac Fixtures.layout1.1 Fixtures.layout1.2 "Leo" (Some 0)
  = inr (flat_map (fun n => map (Chart.segment_line (Fixtures.spec_offset (Fixtures.layout1.2 !!! n) None)
                                                    (Some 0))
                                (Fixtures.layout1.1 !!! n))
                  Layout.zodiac).
Proof.
  apply figures_layer_offsets.
  - vm_compute. reflexivity.
  - apply (bool_decide_unpack _). vm_compute. reflexivity.
Defined.

(** ** Stars layer *)

Section StarsLayerFacts.
Import Layout Chart Fixtures.

Lemma scale_2pi : dwg_scale * (2 * pi) == 750.
Proof. vm_compute. reflexivity. Qed.

Lemma bleed_850 : dwg_bleed_width == 850.
Proof. vm_compute. reflexivity. Qed.

Lemma star_circles_in (sp : gset Z) (max_lng : ext) (s : Star) (c : element) :
  In c (star_circles sp max_lng s) <->
  exists off x y, In off [-2 * pi; 0; 2 * pi] /\
    ecl_to_dwg (ecl_lng s + off) (ecl_lat s) max_lng = (Some x, y) /\
    0 < x /\ x < dwg_bleed_width /\ (vmag s < 3.5 \/ hip_id s ∈ sp) /\
    c = Circle x y (radius s).
Proof.
  unfold star_circles. rewrite in_flat_map. split.
  - intros [off [Hoff Hc]].
    destruct (ecl_to_dwg (ecl_lng s + off) (ecl_lat s) max_lng) as [[x|] y] eqn:E; [|destruct Hc].
    destruct (qlt 0 x) eqn:E1; [|destruct Hc]. destruct (qlt x dwg_bleed_width) eqn:E2; [|destruct Hc].
    simpl in Hc.
    destruct (qlt (vmag s) 3.5 || bool_decide (hip_id s ∈ sp)) eqn:E3; [|destruct Hc].
    destruct Hc as [<-|[]].
    exists off, x, y. repeat split; auto; try (apply qlt_spec; assumption).
    apply orb_true_iff in E3. destruct E3 as [E3|E3]; [left; apply qlt_spec; exact E3|].
    right. apply bool_decide_eq_true in E3. exact E3.
  - intros [off [x [y [Hoff [E [H1 [H2 [H3 ->]]]]]]]].
    exists off. split; [exact Hoff|]. rewrite E.
    apply qlt_spec in H1, H2. rewrite H1, H2. simpl.
    assert (E3 : qlt (vmag s) 3.5 || bool_decide (hip_id s ∈ sp) = true).
    { destruct H3 as [H3|H3].
      - apply qlt_spec in H3. rewrite H3. reflexivity.
      - apply orb_true_iff. right. apply bool_decide_eq_true. exact H3. }
    rewrite E3. left. reflexivity.
Qed.

Lemma stars_layer_in (ids : list Z) (cat : gmap Z Star) (sp : gset Z) (max_lng : ext)
    (cs : list element) :
  stars_layer ids cat sp max_lng = inr cs ->
  forall c, In c cs <-> exists hid s, In hid ids /\ cat !! hid = Some s /\
    In c (star_circles sp max_lng s).
Proof.
  revert cs. induction ids as [|hid rest IH]; intros cs H c; cbn [stars_layer] in H.
  - injection H as <-. split; [intros []|]. intros [? [? [[] _]]].
  - unfold mbind, exn_mbind, dict_get in H.
    destruct (cat !! hid) as [s|] eqn:Hs; [|discriminate]. cbv beta iota in H.
    fold (@dict_get Z _ _ Star) in H.
    destruct (stars_layer rest cat sp max_lng) as [e|others] eqn:Hr; [discriminate|].
    injection H as <-. rewrite in_app_iff, (IH others eq_refl). split.
    + intros [Hc|[h [s' [Hin [Hl Hc]]]]].
      * exists hid, s. split; [left; reflexivity|]. auto.
      * exists h, s'. split; [right; exact Hin|]. auto.
    + intros [h [s' [[<-|Hin] [Hl Hc]]]].
      * left. rewrite Hs in Hl. injection Hl as <-. exact Hc.
      * right. exists h, s'. auto.
Qed.

Lemma star_circles_at_most_two (sp : gset Z) (max_lng : ext) (s : Star) :
  (length (star_circles sp max_lng s) <= 2)%nat.
Proof.
  destruct max_lng as [m|]; [|simpl; lia].
  unfold star_circles. cbn [flat_map ecl_to_dwg option_map].
  remember (dwg_scale * (m - (ecl_lng s + -2 * pi))) as x1.
  remember (dwg_scale * (m - (ecl_lng s + 0))) as x2.
  remember (dwg_scale * (m - (ecl_lng s + 2 * pi))) as x3.
  assert (Hx1 : x1 == x2 + 750) by (rewrite Heqx1, Heqx2, <- scale_2pi; ring).
  assert (Hx3 : x3 == x2 - 750) by (rewrite Heqx3, Heqx2, <- scale_2pi; ring).
  repeat match goal with |- context [qlt ?a ?b] => destruct (qlt a b) eqn:? end;
    cbn [andb orb];
    repeat match goal with |- context [if ?c then _ else _] => destruct c end;
    simpl; try lia; exfalso;
    match goal with
    | A : qlt 0 x3 = true, B : qlt x1 dwg_bleed_width = true |- _ =>
        apply qlt_spec in A, B; rewrite bleed_850 in B; lra
    end.
Qed.

(** The Stars layer is the circles of each star, in the order of [ids]. *)
Lemma stars_layer_flat (ids : list Z) (cat : gmap Z Star) (sp : gset Z) (max_lng : ext)
    (cs : list element) :
  stars_layer ids cat sp max_lng = inr cs ->
  cs = flat_map (fun hid => match cat !! hid with
                            | Some s => star_circles sp max_lng s
                            | None => []
                            end) ids.
Proof.
  revert cs. induction ids as [|hid rest IH]; intros cs H; cbn [stars_layer] in H.
  - injection H as <-. reflexivity.
  - unfold mbind, exn_mbind, dict_get in H.
    destruct (cat !! hid) as [s|] eqn:Hs; [|discriminate]. cbv beta iota in H.
    destruct (stars_layer rest cat sp max_lng) as [e|others] eqn:Hr; [discriminate|].
    injection H as <-. cbn [flat_map]. rewrite Hs, (IH others eq_refl). reflexivity.
Qed.

(** [sorted(hip_catalog.keys())] lists every key once, in increasing order. *)
Lemma sorted_keys_strict (cat : gmap Z Star) : StronglySorted Z.lt (sorted_keys cat).
Proof.
  assert (Hs : StronglySorted Z.le (sorted_keys cat)) by (apply StronglySorted_merge_sort; [intros ? ? ?; lia|intros ? ?; lia]).
  assert (Hn : NoDup (sorted_keys cat)).
  { unfold sorted_keys. rewrite (merge_sort_Permutation Z.le). exact (NoDup_fst_map_to_list cat). }
  revert Hn. induction Hs as [|x l Hs IH Hf]; intros Hn; constructor.
  - apply IH. inversion Hn; assumption.
  - inversion Hn as [|? ? Hx Hn']; subst. apply List.Forall_forall. intros y Hy.
    rewrite List.Forall_forall in Hf. specialize (Hf y Hy).
    assert (x <> y) by (intros ->; apply Hx; apply list_elem_of_In; exact Hy). lia.
Qed.

End StarsLayerFacts.

(** ** Charts *)

Section ChartFacts.
Import Layout Chart.

Lemma make_chart_inv (cat : gmap Z Star) (sp : gset Z) (fc : gmap string (list segment))
    (fm : gmap string ext) (a : string) (d : drawing) :
  make_chart cat sp fc fm a = inr d ->
  exists fa figs circles marks,
    fm !! a = Some fa /\
    stars_layer (sorted_keys cat) cat sp
      (option_map (fun m => m + dwg_border / dwg_scale) fa) = inr circles /\
    d = mkDrawing (chart_filename a) (dwg_bleed_width, pi * dwg_scale)
          [make_svg_layer "Background" [Rect 0 0 dwg_bleed_width (pi * dwg_scale)];
           make_svg_layer "Figures" figs;
           make_svg_layer "Stars" circles;
           make_svg_layer "Ecliptic" marks].
Proof.
  unfold make_chart, mbind, exn_mbind, dict_get. intros H.
  destruct (fm !! a) as [fa|] eqn:Ha; [|discriminate]. cbv beta iota in H.
  match type of H with
  | match ?f with inl _ => _ | inr _ => _ end = _ => destruct f as [|figs] eqn:Hf; [discriminate|]
  end.
  match type of H with
  | match ?f with inl _ => _ | inr _ => _ end = _ => destruct f as [|circles] eqn:Hc; [discriminate|]
  end.
  match type of H with
  | match ?f with inl _ => _ | inr _ => _ end = _ => destruct f as [|marks] eqn:Hm; [discriminate|]
  end.
  injection H as <-. exists fa, figs, circles, marks. auto.
Qed.

Lemma sorted_keys_in (cat : gmap Z Star) (hid : Z) :
  In hid (sorted_keys cat) <-> is_Some (cat !! hid).
Proof.
  unfold sorted_keys. rewrite <- list_elem_of_In, (merge_sort_Permutation Z.le).
  rewrite list_elem_of_fmap. split.
  - intros [[k s] [-> Hin]]. apply elem_of_map_to_list in Hin. simpl. eauto.
  - intros [s Hs]. exists (hid, s). split; [reflexivity|]. apply elem_of_map_to_list. exact Hs.
Qed.

Lemma make_charts_ok (cat : gmap Z Star) (sp : gset Z) (fc : gmap string (list segment))
    (fm : gmap string ext) (anchors : list string) (ds : list drawing) :
  make_charts cat sp fc fm anchors = (ds, None) ->
  map filename ds = map chart_filename anchors /\
  List.Forall (fun d => map gid (groups d) = ["background"; "figures"; "stars"; "ecliptic"]) ds.
Proof.
  revert ds. induction anchors as [|a rest IH]; intros ds H; cbn [make_charts] in H.
  - injection H as <-. split; [reflexivity|constructor].
  - destruct (make_chart cat sp fc fm a) as [e|d] eqn:Hd; [discriminate|].
    destruct (make_charts cat sp fc fm rest) as [ds' err] eqn:Hr.
    injection H as <- ->. destruct (IH ds' eq_refl) as [H1 H2].
    destruct (make_chart_inv _ _ _ _ _ _ Hd) as [fa [figs [circles [marks [_ [_ ->]]]]]].
    split; [cbn; f_equal; exact H1|]. constructor; [reflexivity|exact H2].
Qed.

End ChartFacts.

Open Scope Q_scope.

(** C4 (counterexample): the Stars layer does not keep a unique instance
    per star.  With one star (magnitude 1) placed exactly at the [Ari]
    figure's maximal longitude, the [Ari] chart draws it twice, at x = 50
    (offset 0) and at x = 800 (offset -2*pi): the three instances are 750
    units apart and the kept window is 850 units wide, so the Stars group
    holds more circles than the catalog has stars. *)
Lemma stars_layer_claim_counterexample :
  ~ (forall (cat : gmap Z Layout.Star) (figs : gmap string (list (Z * Z))) (sp : gset Z)
        (ds : list Chart.drawing),
       Chart.render cat figs sp = (ds, None) ->
       forall d g, In d ds -> In g (Chart.groups d) -> Chart.gid g = "stars" ->
       (length (Chart.elems g) <= size cat)%nat).
Proof.
  intros H.
  assert (Hr : Chart.render Fixtures.cat1 Fixtures.figs1 ∅
               = ((Chart.render Fixtures.cat1 Fixtures.figs1 ∅).1, None))
    by (vm_compute; reflexivity).
  pose (dummy := Chart.mkDrawing "" (0, 0) []).
  pose (dummy_g := Chart.mkGroup "" []).
  pose (d := nth 1 (Chart.render Fixtures.cat1 Fixtures.figs1 ∅).1 dummy).
  specialize (H _ _ _ _ Hr d (nth 2 (Chart.groups d) dummy_g)).
  assert (Hd : In d (Chart.render Fixtures.cat1 Fixtures.figs1 ∅).1).
  { apply nth_In. apply Nat.ltb_lt. vm_compute. reflexivity. }
  assert (Hg : In (nth 2 (Chart.groups d) dummy_g) (Chart.groups d)).
  { apply nth_In. apply Nat.ltb_lt. vm_compute. reflexivity. }
  specialize (H Hd Hg).
  assert (Hid : Chart.gid (nth 2 (Chart.groups d) dummy_g) = "stars")
    by (vm_compute; reflexivity).
  specialize (H Hid). apply Nat.leb_le in H. vm_compute in H. discriminate H.
Qed.

(** C4 (amended): in a chart anchored at [a], the Stars group holds
    exactly the circles [Circle x y r] of the catalog stars [s] such that,
    for one of the offsets -2*pi, 0, 2*pi, the instance of [s] shifted by
    that offset lands at [(x, y)] with 0 < x < bleed width, and [s] has
    magnitude below 3.5 or is used by a figure line (radius [r] the
    star's).  Every instance in that window is drawn, and since the
    instances are 2*pi*scale = 750 units apart, a star contributes at
    most two circles.  The group is the concatenation of each star's
    circles, the stars taken in increasing identifier order, every
    catalog identifier once. *)
Theorem stars_layer_instances (cat : gmap Z Layout.Star) (sp : gset Z)
    (fc : gmap string (list Layout.segment)) (fm : gmap string Layout.ext) (a : string)
    (d : Chart.drawing) (fa : Layout.ext) :
  Chart.make_chart cat sp fc fm a = inr d ->
  fm !! a = Some fa ->
  (forall g, In g (Chart.groups d) -> Chart.gid g = "stars" ->
   forall c, In c (Chart.elems g) <->
     exists hid s off x y,
       cat !! hid = Some s /\ In off [-2 * Layout.pi; 0; 2 * Layout.pi] /\
       Layout.ecl_to_dwg (Layout.ecl_lng s + off) (Layout.ecl_lat s)
         (option_map (fun m => m + Layout.dwg_border / Layout.dwg_scale) fa) = (Some x, y) /\
       0 < x /\ x < Layout.dwg_bleed_width /\
       (Layout.vmag s < 3.5 \/ Layout.hip_id s ∈ sp) /\
       c = Chart.Circle x y (Layout.radius s)) /\
  (forall s, (length (Chart.star_circles sp
                (option_map (fun m => (m + Layout.dwg_border / Layout.dwg_scale)%Q) fa) s) <= 2)%nat) /\
  (exists g, In g (Chart.groups d) /\ Chart.gid g = "stars" /\
     Chart.elems g = flat_map (fun hid => match cat !! hid with
                                          | Some s => Chart.star_circles sp
                                              (option_map (fun m => m + Layout.dwg_border / Layout.dwg_scale) fa) s
                                          | None => []
                                          end)
                              (Chart.sorted_keys cat)) /\
  StronglySorted Z.lt (Chart.sorted_keys cat) /\
  (forall hid, In hid (Chart.sorted_keys cat) <-> is_Some (cat !! hid)).
Proof.
  intros Hd Hfa.
  destruct (make_chart_inv _ _ _ _ _ _ Hd) as [fa' [figs [circles [marks [Ha [Hc ->]]]]]].
  rewrite Hfa in Ha. injection Ha as <-.
  split; [|split; [intros s; apply star_circles_at_most_two|split; [|split]]].
  2: { exists (Chart.make_svg_layer "Stars" circles). split; [right; right; left; reflexivity|].
       split; [reflexivity|]. exact (stars_layer_flat _ _ _ _ _ Hc). }
  2: { apply sorted_keys_strict. }
  2: { intros hid. apply sorted_keys_in. }
  intros g Hg Hgid c. cbn [Chart.groups] in Hg.
  destruct Hg as [<-|[<-|[<-|[<-|[]]]]]; try (vm_compute in Hgid; discriminate Hgid).
  cbn [Chart.elems Chart.make_svg_layer].
  rewrite (stars_layer_in _ _ _ _ _ Hc c). split.
  - intros [hid [s [_ [Hs Hin]]]]. apply star_circles_in in Hin.
    destruct Hin as [off [x [y H]]]. exists hid, s, off, x, y. tauto.
  - intros [hid [s [off [x [y [Hs H]]]]]]. exists hid, s.
    split; [apply sorted_keys_in; rewrite Hs; eauto|]. split; [exact Hs|].
    apply star_circles_in. exists off, x, y. exact H.
Qed.

Lemma stars_layer_instances_witness :
  let cat := Fixtures.cat1 in
  let fc := Fixtures.layout1.1 in
  let fm := Fixtures.layout1.2 in
  let d := match Chart.make_chart cat ∅ fc fm "Ari" with
           | inr d => d | inl _ => Chart.mkDrawing "" (0, 0) [] end in
  Chart.make_chart cat ∅ fc fm "Ari" = inr d /\ fm !! "Ari" = Some (Some 1) /\
  (forall g, In g (Chart.groups d) -> Chart.gid g = "stars" ->
   forall c, In c (Chart.elems g) <->
     exists hid s off x y,
       cat !! hid = Some s /\ In off [-2 * Layout.pi; 0; 2 * Layout.pi] /\
       Layout.ecl_to_dwg (Layout.ecl_lng s + off) (Layout.ecl_lat s)
         (option_map (fun m => m + Layout.dwg_border / Layout.dwg_scale) (Some 1)) = (Some x, y) /\
       0 < x /\ x < Layout.dwg_bleed_width /\
       (Layout.vmag s < 3.5 \/ Layout.hip_id s ∈ (∅ : gset Z)) /\
       c = Chart.Circle x y (Layout.radius s)).
Proof.
  intros cat fc fm d.
  assert (Hd : Chart.make_chart cat ∅ fc fm "Ari" = inr d) by (vm_compute; reflexivity).
  assert (Hfa : fm !! "Ari" = Some (Some 1)) by (vm_compute; reflexivity).
  split; [exact Hd|]. split; [exact Hfa|].
  exact (proj1 (stars_layer_instances cat ∅ fc fm "Ari" d (Some 1) Hd Hfa)).
Defined.

(** C9: a run that ends without an exception saves exactly twelve
    drawings, one per zodiac anchor in sorted name order ([Aqr], [Ari],
    [Cap], ..., [Vir]), named
    [ecliptic_chart_beginning_with_<anchor lowercased>.svg], each with the
    four groups background, figures, stars, ecliptic in that order. *)
Theorem render_twelve_charts (cat : gmap Z Layout.Star)
    (figs : gmap string (list (Z * Z))) (sp : gset Z) (ds : list Chart.drawing) :
  Chart.render cat figs sp = (ds, None) ->
  Chart.sorted_zodiac = ["Aqr"; "Ari"; "Cap"; "Cnc"; "Gem"; "Leo";
                         "Lib"; "Psc"; "Sco"; "Sgr"; "Tau"; "Vir"] /\
  map Chart.filename ds = map Chart.chart_filename Chart.sorted_zodiac /\
  map Chart.filename ds =
    ["ecliptic_chart_beginning_with_aqr.svg"; "ecliptic_chart_beginning_with_ari.svg";
     "ecliptic_chart_beginning_with_cap.svg"; "ecliptic_chart_beginning_with_cnc.svg";
     "ecliptic_chart_beginning_with_gem.svg"; "ecliptic_chart_beginning_with_leo.svg";
     "ecliptic_chart_beginning_with_lib.svg"; "ecliptic_chart_beginning_with_psc.svg";
     "ecliptic_chart_beginning_with_sco.svg"; "ecliptic_chart_beginning_with_sgr.svg";
     "ecliptic_chart_beginning_with_tau.svg"; "ecliptic_chart_beginning_with_vir.svg"] /\
  length ds = 12%nat /\
  List.Forall (fun d => map Chart.gid (Chart.groups d) =
                          ["background"; "figures"; "stars"; "ecliptic"]) ds.
Proof.
  unfold Chart.render. intros H.
  destruct (Layout.layout_figs Layout.zodiac figs cat ∅ ∅) as [e|[fc fm]]; [discriminate|].
  destruct (make_charts_ok _ _ _ _ _ _ H) as [H1 H2].
  assert (Hs : Chart.sorted_zodiac = ["Aqr"; "Ari"; "Cap"; "Cnc"; "Gem"; "Leo";
                                      "Lib"; "Psc"; "Sco"; "Sgr"; "Tau"; "Vir"])
    by (vm_compute; reflexivity).
  split; [exact Hs|]. split; [exact H1|].
  assert (H3 : map Chart.filename ds =
    ["ecliptic_chart_beginning_with_aqr.svg"; "ecliptic_chart_beginning_with_ari.svg";
     "ecliptic_chart_beginning_with_cap.svg"; "ecliptic_chart_beginning_with_cnc.svg";
     "ecliptic_chart_beginning_with_gem.svg"; "ecliptic_chart_beginning_with_leo.svg";
     "ecliptic_chart_beginning_with_lib.svg"; "ecliptic_chart_beginning_with_psc.svg";
     "ecliptic_chart_beginning_with_sco.svg"; "ecliptic_chart_beginning_with_sgr.svg";
     "ecliptic_chart_beginning_with_tau.svg"; "ecliptic_chart_beginning_with_vir.svg"])
    by (rewrite H1, Hs; vm_compute; reflexivity).
  split; [exact H3|]. split; [|exact H2].
  rewrite <- (length_map Chart.filename), H3. reflexivity.
Qed.

Lemma render_twelve_charts_witness :
  let ds := (Chart.render ∅ Fixtures.figs0 ∅).1 in
  Chart.render ∅ Fixtures.figs0 ∅ = (ds, None) /\ length ds = 12%nat.
Proof.
  intros ds.
  assert (H : Chart.render ∅ Fixtures.figs0 ∅ = (ds, None)) by (vm_compute; reflexivity).
  split; [exact H|].
  exact (proj1 (proj2 (proj2 (proj2 (render_twelve_charts ∅ Fixtures.figs0 ∅ ds H))))).
Defined.

(** * Further properties of the program *)

(** ** str.strip() *)

Lemma lstrip_chars_in (l : list ascii) (c : ascii) :
  In c l -> py_isspace c = false -> In c (lstrip_chars l).
Proof.
  induction l as [|d r IH]; intros Hin Hs; [destruct Hin|]. simpl.
  destruct (py_isspace d) eqn:Hd.
  - destruct Hin as [->|Hin]; [congruence|]. auto.
  - exact Hin.
Qed.

Lemma lstrip_chars_head (l r : list ascii) (c : ascii) :
  lstrip_chars l = c :: r -> py_isspace c = false.
Proof.
  induction l as [|d l' IH]; simpl; [discriminate|].
  destruct (py_isspace d) eqn:Hd; [exact IH|]. intros H. injection H as <- _. exact Hd.
Qed.

Lemma lstrip_chars_snoc (l : list ascii) (c : ascii) :
  py_isspace c = false -> lstrip_chars (l ++ [c]) = lstrip_chars l ++ [c].
Proof.
  intros Hc. induction l as [|d l' IH]; simpl.
  - rewrite Hc. reflexivity.
  - destruct (py_isspace d); [exact IH|reflexivity].
Qed.

Lemma py_strip_in (s : string) (c : ascii) :
  In c (list_ascii_of_string s) -> py_isspace c = false ->
  In c (list_ascii_of_string (py_strip s)).
Proof.
  intros Hin Hs. unfold py_strip. rewrite list_ascii_of_string_of_list_ascii.
  rewrite <- List.in_rev. apply lstrip_chars_in; [|exact Hs].
  rewrite <- List.in_rev. apply lstrip_chars_in; assumption.
Qed.

Lemma py_strip_head (s : string) :
  list_ascii_of_string (py_strip s) = [] \/
  exists c r, list_ascii_of_string (py_strip s) = c :: r /\ py_isspace c = false.
Proof.
  unfold py_strip. rewrite list_ascii_of_string_of_list_ascii.
  destruct (lstrip_chars (list_ascii_of_string s)) as [|c r] eqn:E.
  - left. reflexivity.
  - right. pose proof (lstrip_chars_head _ _ _ E) as Hc.
    exists c, (rev (lstrip_chars (rev r))). split; [|exact Hc].
    cbn [rev]. rewrite lstrip_chars_snoc by exact Hc. rewrite rev_unit. reflexivity.
Qed.

(** ** Morse encoder: failures, order and bounds of the marks *)

Section MorseFacts.
Import Morse Fixtures.

Lemma alphabet_nonempty : map_Forall (fun _ v => v <> EmptyString) alphabet.
Proof. apply (bool_decide_unpack _). vm_compute. reflexivity. Qed.

Lemma raw_chain_app1 (lo : Q) (l : list (Q * Q)) (a b x : Q) :
  raw_chain lo l a -> a < b -> b + 2 <= x -> raw_chain lo (l ++ [(a, b)]) x.
Proof.
  revert lo. induction l as [|[a0 b0] r IH]; intros lo H Hab Hx; simpl in *.
  - auto.
  - destruct H as [H1 [H2 H3]]. split; [exact H1|]. split; [exact H2|]. apply IH; assumption.
Qed.

Lemma raw_chain_mono (lo : Q) (l : list (Q * Q)) (x x' : Q) :
  raw_chain lo l x -> x <= x' -> raw_chain lo l x'.
Proof.
  revert lo. induction l as [|[a b] r IH]; intros lo H Hx; simpl in *.
  - exact (Qle_trans _ _ _ H Hx).
  - destruct H as [H1 [H2 H3]]. split; [exact H1|]. split; [exact H2|]. apply IH; assumption.
Qed.

Lemma raw_chain_le (lo : Q) (l : list (Q * Q)) (x : Q) : raw_chain lo l x -> lo <= x.
Proof.
  revert lo. induction l as [|[a b] r IH]; intros lo H; simpl in *; [exact H|].
  destruct H as [H1 [H2 H3]]. apply IH in H3. lra.
Qed.

Lemma encode_code_chain (code : list ascii) (x : Q) (cs : list (Q * Q)) (x' : Q) cs' :
  raw_chain 0 cs x -> encode_code code x cs = (x', cs') ->
  raw_chain 0 cs' x' /\ x <= x' /\ (code <> [] -> x + 3 <= x') /\
  length cs' = (length cs + length code)%nat.
Proof.
  revert x cs. induction code as [|sym rest IH]; intros x cs Hc H; cbn [encode_code] in H.
  - injection H as <- <-. split; [exact Hc|]. split; [apply Qle_refl|].
    split; [congruence|]. simpl. lia.
  - destruct (ascii_dec sym "-"%char).
    + assert (Hc' : raw_chain 0 (cs ++ [(x, x + 3)]) (x + 5))
        by (apply raw_chain_app1; [exact Hc|lra|lra]).
      destruct (IH _ _ Hc' H) as [H1 [H2 [_ H4]]].
      split; [exact H1|]. split; [lra|]. split; [intros _; lra|].
      rewrite H4, length_app. simpl. lia.
    + assert (Hc' : raw_chain 0 (cs ++ [(x, x + 1)]) (x + 3))
        by (apply raw_chain_app1; [exact Hc|lra|lra]).
      destruct (IH _ _ Hc' H) as [H1 [H2 [_ H4]]].
      split; [exact H1|]. split; [lra|]. split; [intros _; lra|].
      rewrite H4, length_app. simpl. lia.
Qed.

Lemma encode_chars_ok (l : list ascii) (x : Q) (cs : list (Q * Q)) (x' : Q) cs' :
  raw_chain 0 cs x -> (x == 0 \/ 6 <= x) ->
  encode_chars l x cs = inr (x', cs') ->
  raw_chain 0 cs' x' /\ (x' == 0 \/ 6 <= x') /\ (length cs <= length cs')%nat /\
  (forall c r, l = c :: r -> c <> " "%char -> (length cs < length cs')%nat).
Proof.
  revert x cs. induction l as [|ch rest IH]; intros x cs Hc Hx H; cbn [encode_chars] in H.
  - injection H as <- <-. split; [exact Hc|]. split; [exact Hx|]. split; [lia|].
    intros c r Hl. discriminate.
  - pose proof (raw_chain_le _ _ _ Hc) as H0.
    destruct (ascii_dec ch " "%char) as [Hsp|Hsp].
    + assert (Hc' : raw_chain 0 cs (x + 6)) by (apply (raw_chain_mono _ _ _ _ Hc); lra).
      destruct (IH _ _ Hc' ltac:(right; lra) H) as [H1 [H2 [H3 _]]].
      split; [exact H1|]. split; [exact H2|]. split; [exact H3|].
      intros c r Hl Hc2. injection Hl as -> _. contradiction.
    + destruct (alphabet !! String ch EmptyString) as [code|] eqn:Ha; [|discriminate].
      destruct (encode_code (list_ascii_of_string code) x cs) as [x1 cs1] eqn:He.
      destruct (encode_code_chain _ _ _ _ _ Hc He) as [E1 [E2 [E3 E4]]].
      assert (Hne : list_ascii_of_string code <> []).
      { pose proof (alphabet_nonempty _ _ Ha) as Hn. destruct code; [contradiction|discriminate]. }
      specialize (E3 Hne).
      assert (Hc' : raw_chain 0 cs1 (x1 + 3)) by (apply (raw_chain_mono _ _ _ _ E1); lra).
      destruct (IH _ _ Hc' ltac:(right; lra) H) as [H1 [H2 [H3 _]]].
      split; [exact H1|]. split; [exact H2|].
      assert (Hlt : (length cs < length cs1)%nat)
        by (rewrite E4; destruct (list_ascii_of_string code); [congruence|simpl; lia]).
      split; [lia|]. intros; lia.
Qed.

Lemma encode_chars_error (l : list ascii) (x : Q) (cs : list (Q * Q)) (e : exn) :
  encode_chars l x cs = inl e <->
  e = KeyError /\ exists c, In c l /\ c <> " "%char /\ alphabet !! String c EmptyString = None.
Proof.
  revert x cs. induction l as [|ch rest IH]; intros x cs; cbn [encode_chars].
  - split; [discriminate|]. intros [_ [c [[] _]]].
  - destruct (ascii_dec ch " "%char) as [Hsp|Hsp].
    + rewrite IH. split.
      * intros [He [c [Hin Hc]]]. split; [exact He|]. exists c. split; [right; exact Hin|exact Hc].
      * intros [He [c [[<-|Hin] [Hc Ha]]]]; [contradiction|]. split; [exact He|]. exists c. auto.
    + destruct (alphabet !! String ch EmptyString) as [code|] eqn:Ha.
      * destruct (encode_code (list_ascii_of_string code) x cs) as [x1 cs1].
        rewrite IH. split.
        -- intros [He [c [Hin Hc]]]. split; [exact He|]. exists c. split; [right; exact Hin|exact Hc].
        -- intros [He [c [[<-|Hin] [Hc Hb]]]]; [congruence|]. split; [exact He|]. exists c. auto.
      * split.
        -- intros H. injection H as <-. split; [reflexivity|].
           exists ch. split; [left; reflexivity|]. auto.
        -- intros [-> _]. reflexivity.
Qed.

Lemma morse_raw_ok (s : string) (x : Q) (cs : list (Q * Q)) :
  morse_raw s = inr (x, cs) ->
  raw_chain 0 cs x /\ (x == 0 \/ 6 <= x) /\ (cs = [] <-> list_ascii_of_string (py_strip s) = []).
Proof.
  unfold morse_raw. intros H.
  destruct (encode_chars_ok _ 0 [] x cs (Qle_refl 0) (or_introl (Qeq_refl 0)) H)
    as [H1 [H2 [_ H4]]].
  split; [exact H1|]. split; [exact H2|]. split.
  - intros ->. destruct (py_strip_head s) as [Hn|[c [r [Hl Hc]]]]; [exact Hn|].
    exfalso. assert (Hsp : c <> " "%char) by (intros ->; discriminate Hc).
    specialize (H4 c r Hl Hsp). simpl in H4. lia.
  - intros Hn. rewrite Hn in H. cbn in H. injection H as _ <-. reflexivity.
Qed.

Lemma morse_raw_not_two (s : string) (x : Q) (cs : list (Q * Q)) :
  morse_raw s = inr (x, cs) -> Qeq_bool (x - 2) 0 = false.
Proof.
  intros H. destruct (morse_raw_ok s x cs H) as [_ [Hx _]].
  destruct (Qeq_bool (x - 2) 0) eqn:E; [|reflexivity].
  apply Qeq_bool_eq in E. exfalso. destruct Hx; lra.
Qed.

Lemma scaled_marks (lo : Q) (l : list (Q * Q)) (x s m : Q) :
  raw_chain lo l x -> 0 < s ->
  ordered_marks (map (fun '(x1, x2) => (x1 * s + m, x2 * s + m)) l) /\
  Forall (fun p => lo * s + m <= p.1 /\ p.2 <= (x - 2) * s + m)
    (map (fun '(x1, x2) => (x1 * s + m, x2 * s + m)) l).
Proof.
  revert lo. induction l as [|[a b] r IH]; intros lo H Hs; [split; [exact I|constructor]|].
  destruct H as [H1 [H2 H3]].
  destruct (IH _ H3 Hs) as [Ho Hf].
  pose proof (raw_chain_le _ _ _ H3) as Hb.
  split.
  - cbn [map ordered_marks]. split; [nra|]. split; [|exact Ho].
    destruct r as [|[a' b'] r']; [exact I|]. cbn [map]. destruct H3 as [H4 _]. nra.
  - constructor.
    + simpl. split; nra.
    + eapply Forall_impl; [exact Hf|]. intros p [P1 P2]. split; [|exact P2]. nra.
Qed.

Lemma morse_coords_ordered_bounds (s : string) (minc maxc : Q) (marks : list (Q * Q)) :
  morse_coords s minc maxc = inr marks -> minc < maxc ->
  ordered_marks marks /\ Forall (fun p => minc <= p.1 /\ p.2 <= maxc) marks /\
  (marks = [] <-> py_strip s = ""%string).
Proof.
  unfold morse_coords. destruct (morse_raw s) as [e|[x cs]] eqn:Hr; [discriminate|].
  destruct (morse_raw_ok s x cs Hr) as [Hc [_ Hnil]].
  rewrite (morse_raw_not_two s x cs Hr). intros H Hlt. injection H as <-.
  assert (Hstr : cs = [] <-> py_strip s = ""%string).
  { rewrite Hnil. split; intros H.
    - rewrite <- (string_of_list_ascii_of_string (py_strip s)), H. reflexivity.
    - rewrite H. reflexivity. }
  destruct cs as [|[a b] r].
  - split; [exact I|]. split; [constructor|]. exact Hstr.
  - assert (Hx : 2 < x).
    { destruct Hc as [H1 [H2 H3]]. apply raw_chain_le in H3. lra. }
    set (sc := (maxc - minc) / (x - 2)).
    assert (Hsc : 0 < sc).
    { unfold sc. apply Qmult_lt_0_compat; [lra|]. apply Qinv_lt_0_compat. lra. }
    assert (Hs1 : (x - 2) * sc == maxc - minc) by (unfold sc; field; lra).
    destruct (scaled_marks 0 ((a, b) :: r) x sc minc Hc Hsc) as [Ho Hf].
    split; [exact Ho|]. split.
    + eapply Forall_impl; [exact Hf|]. intros p [P1 P2].
      rewrite Qmult_0_l in P1. rewrite Hs1 in P2. split; lra.
    + split; [discriminate|]. intros H. apply Hstr in H. discriminate.
Qed.


End MorseFacts.

(** X1: [morse_coords] fails only with a [KeyError], and exactly when the
    stripped string holds a character other than the space that has no
    entry in [alphabet]; the final division never divides by zero. *)
Theorem morse_coords_fails_iff_unknown_char (s : string) (minc maxc : Q) (e : exn) :
  Morse.morse_coords s minc maxc = inl e <->
  e = KeyError /\ exists c, In c (list_ascii_of_string (py_strip s)) /\ c <> " "%char /\
    Morse.alphabet !! String c EmptyString = None.
Proof.
  unfold Morse.morse_coords.
  rewrite <- (encode_chars_error _ 0 []). fold (Morse.morse_raw s).
  destruct (Morse.morse_raw s) as [e'|[x cs]] eqn:Hr; [split; intros H; injection H as <-; reflexivity|].
  rewrite (morse_raw_not_two s x cs Hr). split; discriminate.
Qed.

(** X2: any character of the input that is not whitespace and has no
    one-character key in [alphabet] makes [morse_coords] raise [KeyError]:
    an upper-case letter, or a comma, since the alphabet's comma entry
    has the two-character key ", " and the loop looks up one character
    at a time. *)
Theorem morse_coords_unknown_char_raises (s : string) (minc maxc : Q) (c : ascii) :
  In c (list_ascii_of_string s) -> py_isspace c = false ->
  Morse.alphabet !! String c EmptyString = None ->
  Morse.morse_coords s minc maxc = inl KeyError.
Proof.
  intros Hin Hs Ha.
  assert (Hr : Morse.morse_raw s = inl KeyError).
  { apply encode_chars_error. split; [reflexivity|]. exists c.
    split; [apply py_strip_in; assumption|]. split; [|exact Ha].
    intros ->. discriminate Hs. }
  unfold Morse.morse_coords. rewrite Hr. reflexivity.
Qed.

Lemma morse_coords_unknown_char_raises_witness :
  Morse.alphabet !! ", " = Some "--..--" /\
  Morse.morse_coords "a, b" 0 1 = inl KeyError.
Proof.
  split; [vm_compute; reflexivity|].
  apply (morse_coords_unknown_char_raises "a, b" 0 1 ","%char).
  - right. left. reflexivity.
  - reflexivity.
  - vm_compute. reflexivity.
Defined.



(** ** The Ecliptic layer *)

Lemma ecliptic_morse_ok :
  exists coords, Morse.morse_coords Chart.ecliptic_text Layout.dwg_border
                   (Layout.dwg_bleed_width - Layout.dwg_border) = inr coords.
Proof. eexists. vm_compute. reflexivity. Qed.


(** X4: the Ecliptic layer is the same in every chart: one list of Morse
    marks of the fixed text, whatever the chart's [max_lng], drawn as
    horizontal lines at the height of latitude 0 (half the canvas
    height), in increasing order, disjoint, and between x = 50 and
    x = 800 (the border and the bleed width minus the border). *)
Theorem ecliptic_layer_marks :
  exists coords,
    (forall max_lng : Layout.ext,
       Chart.ecliptic_layer max_lng =
         inr (map (fun '(x1, x2) => Chart.Line (Some x1) (Layout.dwg_scale * (Layout.pi / 2 - 0))
                                               (Some x2) (Layout.dwg_scale * (Layout.pi / 2 - 0)))
                  coords)) /\
    coords <> [] /\
    Fixtures.ordered_marks coords /\
    Forall (fun p => 50 <= p.1 /\ p.2 <= 800) coords /\
    Layout.dwg_scale * (Layout.pi / 2 - 0) == Layout.pi * Layout.dwg_scale / 2.
Proof.
  destruct ecliptic_morse_ok as [coords E].
  assert (Hlt : Layout.dwg_border < Layout.dwg_bleed_width - Layout.dwg_border)
    by (vm_compute; reflexivity).
  destruct (morse_coords_ordered_bounds _ _ _ _ E Hlt) as [Ho [Hf Hn]].
  exists coords. split.
  - intros max_lng. unfold Chart.ecliptic_layer, Layout.ecl_to_dwg. cbv iota.
    unfold mbind, exn_mbind. rewrite E. reflexivity.
  - split; [intros Hc; apply Hn in Hc; vm_compute in Hc; discriminate Hc|].
    split; [exact Ho|]. split; [|unfold Qdiv; ring].
    assert (Hb : Layout.dwg_border == 50) by (vm_compute; reflexivity).
    assert (Hw : Layout.dwg_bleed_width - Layout.dwg_border == 800) by (vm_compute; reflexivity).
    eapply Forall_impl; [exact Hf|]. intros p [P1 P2].
    rewrite Hb in P1. rewrite Hw in P2. split; assumption.
Qed.

(** ** Figure loader: the used stars, and the lines it skips *)

Section FiguresMore.
Import Figures.

Lemma read_pairs_used (n : nat) (fields : list string) (fig : figure) (sp : gset Z)
    fields' fig' sp' :
  read_pairs n fields fig sp = inr (fields', fig', sp') ->
  (forall p, In p fig -> p.1 ∈ sp /\ p.2 ∈ sp) ->
  sp ⊆ sp' /\ (forall p, In p fig' -> p.1 ∈ sp' /\ p.2 ∈ sp').
Proof.
  revert fields fig sp. induction n as [|n IH]; intros fields fig sp H Hf; cbn [read_pairs] in H.
  - injection H as <- <- <-. split; [set_solver|exact Hf].
  - destruct (pop_int fields) as [e|[id1 f1]]; [discriminate|].
    destruct (pop_int f1) as [e|[id2 f2]]; [discriminate|].
    destruct (IH _ _ _ H) as [Hs Hp].
    + intros p Hin. apply in_app_iff in Hin. destruct Hin as [Hin|[<-|[]]].
      * destruct (Hf p Hin). set_solver.
      * simpl. set_solver.
    + split; [set_solver|exact Hp].
Qed.

Lemma fig_line_used (l : string) (figs : gmap string figure) (sp : gset Z) out :
  (forall n f p, figs !! n = Some f -> In p f -> p.1 ∈ sp /\ p.2 ∈ sp) ->
  match fig_line l figs sp out with
  | LContinue figs' sp' _ | LBreak figs' sp' _ =>
      forall n f p, figs' !! n = Some f -> In p f -> p.1 ∈ sp' /\ p.2 ∈ sp'
  | LRaise _ _ => True
  end.
Proof.
  intros Hinv. unfold fig_line. cbv zeta.
  destruct (skip_line (py_strip l)); [exact Hinv|].
  destruct (py_split (py_strip l)) as [|name fields]; [exact I|].
  destruct (pop_int fields) as [e|[count f1]]; [exact I|].
  destruct (read_pairs (Z.to_nat count) f1 [] sp) as [e|[[f2 fig] sp']] eqn:Hr; [exact I|].
  destruct (read_pairs_used _ _ _ _ _ _ _ Hr ltac:(intros p [])) as [Hs Hp].
  destruct f2 as [|t f2].
  - intros n f p Hn Hin. destruct (decide (n = name)) as [->|Hne].
    + rewrite lookup_insert_eq in Hn. injection Hn as <-. exact (Hp p Hin).
    + rewrite lookup_insert_ne in Hn by congruence. destruct (Hinv n f p Hn Hin). set_solver.
  - intros n f p Hn Hin. destruct (Hinv n f p Hn Hin). set_solver.
Qed.

Lemma fig_run_used (lines : list string) (figs : gmap string figure) (sp : gset Z) out :
  (forall n f p, figs !! n = Some f -> In p f -> p.1 ∈ sp /\ p.2 ∈ sp) ->
  match fig_run lines figs sp out with
  | LContinue figs' sp' _ | LBreak figs' sp' _ =>
      forall n f p, figs' !! n = Some f -> In p f -> p.1 ∈ sp' /\ p.2 ∈ sp'
  | LRaise _ _ => True
  end.
Proof.
  revert figs sp out. induction lines as [|l rest IH]; intros figs sp out Hinv; [exact Hinv|].
  cbn [fig_run]. pose proof (fig_line_used l figs sp out Hinv) as Hl.
  destruct (fig_line l figs sp out); [apply IH; exact Hl|exact Hl|exact I].
Qed.

Lemma fig_run_app_step (pre rest : list string) figs sp out :
  fig_run (pre ++ rest) figs sp out =
  match fig_run pre figs sp out with
  | LContinue f s o => fig_run rest f s o
  | st => st
  end.
Proof.
  revert figs sp out. induction pre as [|l pre IH]; intros figs sp out; [reflexivity|].
  cbn [app fig_run]. destruct (fig_line l figs sp out); [apply IH|reflexivity|reflexivity].
Qed.

End FiguresMore.

(** X5: every identifier of every figure [get_figures] returns is in the
    returned set of used stars (so all figure stars are drawn whatever
    their magnitude). *)
Theorem get_figures_ids_in_used_stars (lines : list string) out figs (sp : gset Z) :
  Figures.get_figures lines = (out, inr (figs, sp)) ->
  forall name fig id1 id2, figs !! name = Some fig -> In (id1, id2) fig -> id1 ∈ sp /\ id2 ∈ sp.
Proof.
  unfold Figures.get_figures. intros H name fig id1 id2 Hn Hin.
  pose proof (fig_run_used lines ∅ ∅ [] ltac:(intros n f p Hl; rewrite lookup_empty in Hl; discriminate))
    as Hu.
  destruct (Figures.fig_run lines ∅ ∅ []) as [f s o|f s o|o e]; try discriminate;
    injection H as _ <- <-; exact (Hu name fig (id1, id2) Hn Hin).
Qed.

Lemma get_figures_ids_in_used_stars_witness :
  let r := Figures.get_figures ["Leo 2 1 2 2 3"] in
  Figures.get_figures ["Leo 2 1 2 2 3"] = (r.1, inr ({[ "Leo" := [(1, 2); (2, 3)]%Z ]}, {[ 1; 2; 3 ]}%Z)) /\
  (2 ∈ ({[ 1; 2; 3 ]} : gset Z) /\ 3 ∈ ({[ 1; 2; 3 ]} : gset Z))%Z.
Proof.
  intros r.
  assert (H : Figures.get_figures ["Leo 2 1 2 2 3"]
              = (r.1, inr ({[ "Leo" := [(1, 2); (2, 3)]%Z ]}, {[ 1; 2; 3 ]}%Z)))
    by (vm_compute; reflexivity).
  split; [exact H|].
  apply (get_figures_ids_in_used_stars _ _ _ _ H "Leo" [(1, 2); (2, 3)]%Z 2%Z 3%Z).
  - vm_compute. reflexivity.
  - right. left. reflexivity.
Defined.

(** X6: a line that is empty or starts with '#' after stripping has no
    effect anywhere in the figure file: removing it changes neither the
    printed output nor the result of [get_figures]. *)
Theorem get_figures_skips_blank_and_comment_lines (pre post : list string) (l : string) :
  Figures.skip_line (py_strip l) = true ->
  Figures.get_figures (pre ++ l :: post) = Figures.get_figures (pre ++ post).
Proof.
  intros Hs.
  assert (Hl : forall f s o, Figures.fig_line l f s o = Figures.LContinue f s o)
    by (intros f s o; unfold Figures.fig_line; cbv zeta; rewrite Hs; reflexivity).
  unfold Figures.get_figures. rewrite !fig_run_app_step.
  destruct (Figures.fig_run pre ∅ ∅ []); try reflexivity.
  cbn [Figures.fig_run]. rewrite Hl. reflexivity.
Qed.

Lemma get_figures_skips_blank_and_comment_lines_witness :
  Figures.get_figures (["Leo 1 1 2"] ++ "  # Leo again" :: ["Ari 1 3 4"])
  = Figures.get_figures (["Leo 1 1 2"] ++ ["Ari 1 3 4"]).
Proof.
  apply get_figures_skips_blank_and_comment_lines. vm_compute. reflexivity.
Defined.

(** ** Catalog loader: the coordinates it keeps, the lines it discards *)

Section CatalogMore.
Import Catalog.

Lemma load_lines_finite (lines : list bytes) catalog discarded out catalog' discarded' out' :
  (forall k s, catalog !! k = Some s -> is_infinite (ra s) = false /\ is_infinite (dec s) = false) ->
  load_lines lines catalog discarded out = Loaded catalog' discarded' out' ->
  forall k s, catalog' !! k = Some s -> is_infinite (ra s) = false /\ is_infinite (dec s) = false.
Proof.
  revert catalog discarded out. induction lines as [|line rest IH]; intros catalog discarded out Hok H;
    simpl in H.
  - injection H as <- _ _. exact Hok.
  - destruct (parse_fields line) as [[[[hid r] d] v]|]; [|eauto].
    destruct (py_gt v vmag_limit); [eauto|].
    unfold make_star in H. destruct (is_infinite d || is_infinite r) eqn:Hi; [discriminate|].
    apply orb_false_iff in Hi. destruct Hi as [Hd Hr].
    eapply IH; [|exact H].
    intros k s Hk. destruct (decide (k = hid)) as [->|Hne].
    + rewrite lookup_insert_eq in Hk. injection Hk as <-. simpl. auto.
    + rewrite lookup_insert_ne in Hk by congruence. exact (Hok k s Hk).
Qed.

End CatalogMore.

(** X7: no loaded star has an infinite right ascension or declination: a
    line with one, whose magnitude is not above 7.0, raises the
    math-domain error of [Star.__init__] and ends the load. *)
Theorem load_hip_catalog_no_infinite_coordinates :
  (forall lines out catalog, Catalog.load_hip_catalog lines = (out, inr catalog) ->
     forall k s, catalog !! k = Some s ->
       Catalog.is_infinite (Catalog.ra s) = false /\ Catalog.is_infinite (Catalog.dec s) = false) /\
  (forall line rest catalog discarded out hid r d v,
     Catalog.parse_fields line = Some (hid, r, d, v) ->
     Catalog.py_gt v Catalog.vmag_limit = false ->
     Catalog.is_infinite r = true \/ Catalog.is_infinite d = true ->
     Catalog.load_lines (line :: rest) catalog discarded out = Catalog.Raised out MathDomainError).
Proof.
  split.
  - intros lines out catalog H. unfold Catalog.load_hip_catalog in H.
    destruct (Catalog.load_lines lines ∅ 0 []) eqn:Hl; [|discriminate].
    injection H as _ <-. eapply load_lines_finite; [|exact Hl].
    intros k s Hk. rewrite lookup_empty in Hk. discriminate.
  - intros line rest catalog discarded out hid r d v Hp Hv Hi. simpl. rewrite Hp, Hv.
    unfold Catalog.make_star.
    assert (Hb : Catalog.is_infinite d || Catalog.is_infinite r = true)
      by (apply orb_true_iff; tauto).
    rewrite Hb. reflexivity.
Qed.

Lemma load_hip_catalog_no_infinite_coordinates_witness :
  Catalog.load_lines [Catalog.catalog_line "12" "inf" "0.5" "3"] ∅ 0 []
  = Catalog.Raised [] MathDomainError.
Proof.
  apply (proj2 load_hip_catalog_no_infinite_coordinates _ _ _ _ _ 12%Z Catalog.PInf
           (Catalog.Fin 0.5) (Catalog.Fin 3)).
  - vm_compute. reflexivity.
  - vm_compute. reflexivity.
  - left. reflexivity.
Defined.

(** X8: a line shorter than 130 bytes, or whose magnitude columns 129-135
    are blank, never parses (float() of an empty field raises), so it is
    discarded. *)
Theorem parse_fields_blank_magnitude (line : Catalog.bytes) :
  (length line <= 129)%nat \/ Catalog.bytes_strip (Catalog.py_slice 129 136 line) = [] ->
  Catalog.parse_fields line = None.
Proof.
  intros H.
  assert (Hv : Catalog.py_float_bytes (Catalog.py_slice 129 136 line) = None).
  { assert (Hs : Catalog.bytes_strip (Catalog.py_slice 129 136 line) = []).
    { destruct H as [H|H]; [|exact H].
      unfold Catalog.py_slice. rewrite skipn_all2 by lia. reflexivity. }
    unfold Catalog.py_float_bytes. rewrite Hs. reflexivity. }
  unfold Catalog.parse_fields, mbind, option_bind.
  destruct (Catalog.py_int_bytes _); [|reflexivity].
  destruct (Catalog.py_float_bytes (Catalog.py_slice 15 28 line)); [|reflexivity].
  destruct (Catalog.py_float_bytes (Catalog.py_slice 29 42 line)); [|reflexivity].
  rewrite Hv. reflexivity.
Qed.

Lemma parse_fields_blank_magnitude_witness :
  Catalog.parse_fields (Catalog.catalog_line "12" "1.5" "-0.25" "") = None.
Proof.
  apply parse_fields_blank_magnitude. right. vm_compute. reflexivity.
Defined.

(** ** Layout and charts: failures, totality, empty and anchor figures *)

Section LayoutMore.
Import Layout Chart Fixtures.

Lemma collect_coords_error (cat : gmap Z Star) (pairs : list (Z * Z)) cps mn mx (e : exn) :
  collect_coords cat pairs cps mn mx = inl e <->
  e = KeyError /\ exists id1 id2, In (id1, id2) pairs /\ (cat !! id1 = None \/ cat !! id2 = None).
Proof.
  revert cps mn mx. induction pairs as [|[id1 id2] rest IH]; intros cps mn mx; cbn [collect_coords].
  - split; [discriminate|]. intros [_ [? [? [[] _]]]].
  - unfold mbind, exn_mbind, dict_get.
    destruct (cat !! id1) as [s1|] eqn:H1; cbv beta iota.
    + destruct (cat !! id2) as [s2|] eqn:H2; cbv beta iota zeta.
      * rewrite IH. split.
        -- intros [He [a [b [Hin Hn]]]]. split; [exact He|].
           exists a, b. split; [right; exact Hin|exact Hn].
        -- intros [He [a [b [[Heq|Hin] Hn]]]].
           ++ injection Heq as <- <-. rewrite H1, H2 in Hn. destruct Hn; discriminate.
           ++ split; [exact He|]. exists a, b. auto.
      * split.
        -- intros H. injection H as <-. split; [reflexivity|].
           exists id1, id2. split; [left; reflexivity|]. right; exact H2.
        -- intros [-> _]. reflexivity.
    + split.
      * intros H. injection H as <-. split; [reflexivity|].
        exists id1, id2. split; [left; reflexivity|]. left; exact H1.
      * intros [-> _]. reflexivity.
Qed.

Lemma figure_layout_error (cat : gmap Z Star) (pairs : list (Z * Z)) (e : exn) :
  figure_layout cat pairs = inl e <->
  e = KeyError /\ exists id1 id2, In (id1, id2) pairs /\ (cat !! id1 = None \/ cat !! id2 = None).
Proof.
  rewrite <- (collect_coords_error cat pairs [] None None).
  unfold figure_layout, mbind, exn_mbind.
  destruct (collect_coords cat pairs [] None None) as [e'|[[cps mn] mx]].
  - cbv beta iota. split; intros H; injection H as ->; reflexivity.
  - cbv beta iota. split; [|discriminate]. intros H.
    destruct mn as [lo|], mx as [hi|]; try destruct (qlt _ _); discriminate.
Qed.










End LayoutMore.

(** X9: the layout of one zodiac figure raises, and then always a
    KeyError, exactly when one of its pairs names a star identifier that
    is not in the catalog. *)
Theorem figure_layout_fails_iff_missing_star (cat : gmap Z Layout.Star) (pairs : list (Z * Z))
    (e : exn) :
  Layout.figure_layout cat pairs = inl e <->
  e = KeyError /\ exists id1 id2, In (id1, id2) pairs /\ (cat !! id1 = None \/ cat !! id2 = None).
Proof. apply figure_layout_error. Qed.




(** X12: a star's radius decreases as its magnitude grows, is always
    positive, and stays at its smallest value dwg_scale/800 for every
    magnitude of at least 6.5/0.8 (the cap of min(6.5, 0.8*vmag)); the
    trigonometry of Star.__init__ plays no part in it. *)
Theorem star_radius_decreasing_positive (cos sin sqrt : Q -> Q) (atan2 pow : Q -> Q -> Q)
    (hid : Z) (ra dec v1 v2 : Q) :
  v1 <= v2 ->
  let r v := Projection.radius
               (@Projection.Star_init Q (Fixtures.exact_ops cos sin sqrt atan2 pow) hid ra dec v) in
  r v2 <= r v1 /\ 0 < r v2 /\ (65 # 8 <= v2 -> r v2 == Layout.dwg_scale / 800).
Proof.
  intros H r.
  assert (R : forall v, r v = Layout.dwg_scale
                             * (7 - (if Layout.qlt (0.8 * v) 6.5 then 0.8 * v else 6.5)) / 400)
    by (intros; reflexivity).
  rewrite !R.
  assert (Hs : 0 < Layout.dwg_scale) by (vm_compute; reflexivity).
  assert (H400 : 0 < / 400) by (vm_compute; reflexivity).
  assert (Mono : forall a b, a <= b ->
            Layout.dwg_scale * (7 - b) / 400 <= Layout.dwg_scale * (7 - a) / 400).
  { intros a b Hab. unfold Qdiv. apply Qmult_le_compat_r; [|apply Qlt_le_weak; exact H400].
    apply (Qmult_le_l _ _ _ Hs). lra. }
  assert (Pos : forall a, a <= 6.5 -> 0 < Layout.dwg_scale * (7 - a) / 400).
  { intros a Ha. unfold Qdiv. apply Qmult_lt_0_compat; [|exact H400].
    apply Qmult_lt_0_compat; [exact Hs|lra]. }
  destruct (Layout.qlt (0.8 * v1) 6.5) eqn:E1, (Layout.qlt (0.8 * v2) 6.5) eqn:E2;
    (apply qlt_spec in E1 || apply qlt_false in E1);
    (apply qlt_spec in E2 || apply qlt_false in E2);
    (split; [apply Mono; lra|]); (split; [apply Pos; lra|]); intros Hv; try lra; field.
Qed.

Lemma star_radius_decreasing_positive_witness :
  let r v := Projection.radius
               (@Projection.Star_init Q
                  (Fixtures.exact_ops (fun _ => 0) (fun _ => 0) (fun _ => 0)
                     (fun _ _ => 0) (fun _ _ => 0)) 1 0 0 v) in
  (1 <= 9) /\ r 9 <= r 1 /\ 0 < r 9 /\ (65 # 8 <= 9 -> r 9 == Layout.dwg_scale / 800).
Proof.
  split; [lra|].
  exact (star_radius_decreasing_positive (fun _ => 0) (fun _ => 0) (fun _ => 0)
           (fun _ _ => 0) (fun _ _ => 0) 1 0 0 1 9 ltac:(lra)).
Defined.
